(** * Sentry: the AI suggested-fix endpoint and the span column registry

    A shallow embedding of
    - [src/sentry/api/endpoints/event_ai_suggested_fix.py]: [get_openai_policy],
      [trim_frames], [describe_event_for_ai] and the GET handler of
      [EventAiSuggestedFixEndpoint];
    - [src/sentry/search/eap/columns.py]: [ResolvedColumn] and the table
      [SPAN_COLUMN_DEFINITIONS].

    Python values are a small universe of JSON-like data, dictionaries keep
    their insertion order, exceptions are the error half of a result type, and
    the objects that [trim_frames] marks in place live in an explicit store. *)

From Stdlib Require Import ZArith String Ascii List Floats.PrimFloat.
From stdpp Require Import gmap strings list sorting pretty.

Set Warnings "-register-all,-clear-no-such-hyp".

Local Open Scope Z_scope.

(** ** Python values *)

Module Py.

(** The values an event payload (decoded JSON) is made of.  A [VDict] lists its
    items in insertion order, as [dict] and [OrderedDict] do; lookups take the
    first item with the key, so the list behaves as the dictionary in which
    every key occurs once. *)
Inductive value : Type :=
  | VNone
  | VBool (b : bool)
  | VInt (z : Z)
  | VFloat (f : float)
  | VStr (s : string)
  | VList (l : list value)
  | VDict (d : list (string * value)).

Abbreviation dict := (list (string * value)).

(** The exceptions the modelled code can raise. *)
Inductive exn : Type :=
  | KeyError (key : value)
  | IndexError
  | TypeError
  | AttributeError
  | ResourceDoesNotExist
  | OpenAIError (msg : string).

Inductive result (A : Type) : Type :=
  | Ok (a : A)
  | Raise (e : exn).
Arguments Ok {A} a.
Arguments Raise {A} e.

Definition bind {A B} (r : result A) (k : A → result B) : result B :=
  match r with
  | Ok a => k a
  | Raise e => Raise e
  end.

(** [bool(v)]: the truth value the [if], [or] and [not] of the source test. *)
Definition truthy (v : value) : bool :=
  match v with
  | VNone => false
  | VBool b => b
  | VInt z => negb (z =? 0)
  | VFloat f => negb (PrimFloat.eqb f 0%float)
  | VStr s => negb (String.eqb s "")
  | VList l => match l with [] => false | _ => true end
  | VDict d => match d with [] => false | _ => true end
  end.

(** [v is False] *)
Definition is_False (v : value) : bool :=
  match v with
  | VBool false => true
  | _ => false
  end.

(** [v is None] *)
Definition is_None (v : value) : bool :=
  match v with
  | VNone => true
  | _ => false
  end.

(** [v == s] for a string literal [s]: only a [str] equals a [str]. *)
Definition eq_str (v : value) (s : string) : bool :=
  match v with
  | VStr t => String.eqb t s
  | _ => false
  end.

(** [a or b] *)
Definition or_else (a b : value) : value := if truthy a then a else b.

(** *** Dictionaries *)

(** [k in d], [d.get(k)] *)
Fixpoint dict_lookup (d : dict) (k : string) : option value :=
  match d with
  | [] => None
  | (k', v) :: d' => if String.eqb k' k then Some v else dict_lookup d' k
  end.

(** [d.get(k, dflt)] *)
Definition dict_get (d : dict) (k : string) (dflt : value) : value :=
  match dict_lookup d k with
  | Some v => v
  | None => dflt
  end.

(** [d[k] = v]: an existing key keeps its place, a new one goes last. *)
Fixpoint dict_set (d : dict) (k : string) (v : value) : dict :=
  match d with
  | [] => [(k, v)]
  | (k', v') :: d' =>
      if String.eqb k' k then (k', v) :: d' else (k', v') :: dict_set d' k v
  end.

Definition dict_keys (d : dict) : list string := map fst d.

(** [v.get(k, dflt)] on an arbitrary value: only a dictionary has [get]. *)
Definition get (v : value) (k : string) (dflt : value) : result value :=
  match v with
  | VDict d => Ok (dict_get d k dflt)
  | _ => Raise AttributeError
  end.

(** [v[k]] for a string key [k].  A dictionary without the key raises
    [KeyError]; no other value of the universe can be indexed by a string. *)
Definition getitem (v : value) (k : string) : result value :=
  match v with
  | VDict d =>
      match dict_lookup d k with
      | Some x => Ok x
      | None => Raise (KeyError (VStr k))
      end
  | _ => Raise TypeError
  end.

(** *** Sequences *)

(** The index a slice bound denotes in a sequence of length [n]: negative
    bounds count from the end, and every bound is clamped to [0..n]. *)
Definition slice_bound (n i : Z) : Z :=
  if i <? 0 then Z.max (i + n) 0 else Z.min i n.

(** [l[start:stop]] *)
Definition slice {A} (l : list A) (start stop : Z) : list A :=
  let n := Z.of_nat (length l) in
  let a := slice_bound n start in
  let b := slice_bound n stop in
  take (Z.to_nat (b - a)) (drop (Z.to_nat a) l).

Fixpoint chars (s : string) : list value :=
  match s with
  | EmptyString => []
  | String c s' => VStr (String c EmptyString) :: chars s'
  end.

(** [v[:n]] for [n >= 0].  Lists and strings can be sliced (a string by
    character); [None], numbers and booleans are not subscriptable, and a
    dictionary rejects a slice as a key (TypeError: unhashable type, up to
    Python 3.11). *)
Definition slice_to (v : value) (n : Z) : result value :=
  match v with
  | VList l => Ok (VList (slice l 0 n))
  | VStr s => Ok (VStr (String.substring 0 (Z.to_nat (slice_bound
                    (Z.of_nat (String.length s)) n)) s))
  | _ => Raise TypeError
  end.

(** [list(reversed(v))].  A list or a string is reversible, and so is the key
    view of a dictionary (Python 3.8 and later); nothing else is. *)
Definition reversed (v : value) : result (list value) :=
  match v with
  | VList l => Ok (rev l)
  | VStr s => Ok (rev (chars s))
  | VDict d => Ok (rev (map (λ kv, VStr (fst kv)) d))
  | _ => Raise TypeError
  end.

(** [v[i]] for an integer literal [i >= 0]. *)
Definition getindex (v : value) (i : nat) : result value :=
  match v with
  | VList l =>
      match l !! i with
      | Some x => Ok x
      | None => Raise IndexError
      end
  | VStr s =>
      match chars s !! i with
      | Some x => Ok x
      | None => Raise IndexError
      end
  | VDict _ => Raise (KeyError (VInt (Z.of_nat i)))
  | _ => Raise TypeError
  end.

(** [int(x / 2)] for an integer [x]: true division, then truncation towards
    zero (exact for the lengths of lists, far below 2^53). *)
Definition int_half (x : Z) : Z := Z.quot x 2.

(** *** Strings *)

Definition bytes (l : list nat) : string :=
  string_of_list_ascii (map ascii_of_nat l).

Definition str_drop (n : nat) (s : string) : string :=
  String.substring n (String.length s - n) s.

(** The characters [str.isspace] accepts, in UTF-8: U+0009..U+000D,
    U+001C..U+0020, U+0085, U+00A0, U+1680, U+2000..U+200A, U+2028, U+2029,
    U+202F, U+205F and U+3000. *)
Definition whitespace : list string :=
  map bytes
    [ [9]; [10]; [11]; [12]; [13]; [28]; [29]; [30]; [31]; [32];
      [194; 133]; [194; 160]; [225; 154; 128];
      [226; 128; 128]; [226; 128; 129]; [226; 128; 130]; [226; 128; 131];
      [226; 128; 132]; [226; 128; 133]; [226; 128; 134]; [226; 128; 135];
      [226; 128; 136]; [226; 128; 137]; [226; 128; 138];
      [226; 128; 168]; [226; 128; 169]; [226; 128; 175];
      [226; 129; 159]; [227; 128; 128] ]%nat.

Fixpoint lstrip_with (ws : list string) (fuel : nat) (s : string) : string :=
  match fuel with
  | O => s
  | S fuel' =>
      match List.find (λ w, String.prefix w s) ws with
      | Some w => lstrip_with ws fuel' (str_drop (String.length w) s)
      | None => s
      end
  end.

Definition lstrip (s : string) : string :=
  lstrip_with whitespace (String.length s) s.

Definition rstrip (s : string) : string :=
  String.rev
    (lstrip_with (map String.rev whitespace) (String.length s) (String.rev s)).

(** [s.strip()] *)
Definition str_strip (s : string) : string := rstrip (lstrip s).

(** [v.strip()] on an arbitrary value: only a string has [strip]. *)
Definition strip (v : value) : result string :=
  match v with
  | VStr s => Ok (str_strip s)
  | _ => Raise AttributeError
  end.

Fixpoint replace_from (old new : string) (skip : nat) (s : string) : string :=
  match s with
  | EmptyString => EmptyString
  | String c s' =>
      match skip with
      | S k => replace_from old new k s'
      | O =>
          if String.prefix old s
          then new +:+ replace_from old new (String.length old - 1) s'
          else String c (replace_from old new 0 s')
      end
  end.

(** [s.replace(old, new)] for a non-empty [old]: every occurrence, left to
    right, without overlap. *)
Definition str_replace (s old new : string) : string :=
  replace_from old new 0 s.

End Py.

Import Py.

Notation "'let*' x ':=' e 'in' k" := (Py.bind e (λ x, k))
  (at level 10, x name, e at level 100, k at level 200, only parsing).

(** ** sentry.utils.json and the text the endpoint sends

    [json.dumps] is not part of the modelled sources: serialised text is
    represented by the document it serialises. *)

Inductive text : Type :=
  | Str (s : string)
  | json_dumps (v : value).

(** ** src/sentry/api/endpoints/event_ai_suggested_fix.py *)

Module EventAiSuggestedFix.

Definition MAX_STACKTRACE_FRAMES : Z := 30.

Definition FUN_PROMPT_CHOICES : list string :=
  [ "[haiku about the error]";
    "[hip hop rhyme about the error]";
    "[4 line rhyme about the error]";
    "[2 stanza rhyme about the error]";
    "[anti joke about the error]" ].

Definition dquote : string := String (ascii_of_nat 34) EmptyString.

Definition PROMPT : string :=
"You are an assistant that analyses software errors, describing the problem with the following rules:

* Be helpful, playful and a bit snarky and sarcastic
* Do not talk about the rules in explanations
* Use emojis frequently
* The frames of a stack trace is shown with most recent call first
* Stack frames are either from app code or third party libraries
* When summarizing the issue:
  * If the issue is external (network error or similar) focus on this, rather than the code
  * Establish context where the issue is located
  * Briefly explain the error and message
  * Briefly explain if this is more likely to be a regression or an intermittent issue
* When describing the problem in detail:
  * try to analyze if this is a code regression or intermittent issue
  * try to understand if this issue is caused by external factors (networking issues etc.) or a bug
* When suggesting a fix:
  * If this is an external issue, mention best practices for this
  * Explain where the fix should be located
  * Explain what code changes are necessary
* Remember Sentry's marketing message: " +:+ dquote +:+ "Sentry can't fix this" +:+ dquote +:+ "

Write the answers into the following template:

```
[snarky greeting]

#### Summary

[summary of the problem]

#### Detailed Description

[detailed description of the problem]

#### Proposed Solution

[suggestion for how to fix this issue]

#### What Else

[uplifting closing statements]

___FUN_PROMPT___
```
".

(** These tags are removed because they are unstable between the events of an
    issue, and unrelated to what the assistant can answer. *)
Definition BLOCKED_TAGS : gset string :=
  list_to_set
    [ "user"; "server_name"; "release"; "handled"; "client_os";
      "client_os.name"; "browser"; "browser.name"; "environment"; "runtime";
      "device"; "device.family"; "gpu"; "gpu.name"; "gpu.vendor"; "url";
      "trace"; "otel" ].

(** [get_openai_policy]: [send organization] are the responses of the
    receivers of the [openai_policy_check] signal, in the order [send] returns
    them.  The last response that is not [None] wins, over the default
    ["allowed"]. *)
Definition get_openai_policy (openai_policy_check_send : Z → list value)
    (organization : Z) : value :=
  let results := openai_policy_check_send organization in
  foldl (λ result new_result,
           if is_None new_result then result else new_result)
        (VStr "allowed") results.

(** *** trim_frames

    The frames are objects, and [trim_frames] marks the ones it drops by
    setting their ["delete"] key in place: the store maps an object's identity
    to its dictionary, and a list of frames is a list of identities (the same
    object may occur twice). *)

Abbreviation loc := nat (only parsing).
Abbreviation store := (gmap nat dict) (only parsing).

Definition obj (h : store) (x : loc) : dict := default [] (h !! x).

(** [x.get(k)] *)
Definition obj_get (h : store) (x : loc) (k : string) : value :=
  dict_get (obj h x) k VNone.

(** [x[k] = v] *)
Definition obj_set (h : store) (x : loc) (k : string) (v : value) : store :=
  <[x := dict_set (obj h x) k v]> h.

(** The first loop: count the frames and split them into app and system
    frames. *)
Definition classify (h : store)
    (acc : Z * list loc * list loc) (frame : loc) : Z * list loc * list loc :=
  let '(frames_len, app_frames, system_frames) := acc in
  if truthy (obj_get h frame "in_app")
  then (frames_len + 1, app_frames ++ [frame], system_frames)
  else (frames_len + 1, app_frames, system_frames ++ [frame]).

(** [for frame in sel: frame["delete"] = True; remaining -= 1] *)
Definition mark_deleted (acc : store * Z) (frame : loc) : store * Z :=
  (obj_set acc.1 frame "delete" (VBool true), acc.2 - 1).

Definition trim_frames (h : store) (frames : list loc) (frame_allowance : Z)
    : store * list loc :=
  let '(frames_len, app_frames, system_frames) :=
    foldl (classify h) (0, [], []) frames in
  if frames_len <=? frame_allowance then (h, frames) else
  let remaining := frames_len - frame_allowance in
  let app_count := Z.of_nat (length app_frames) in
  let system_allowance := Z.max (frame_allowance - app_count) 0 in
  let '(h, remaining) :=
    if negb (system_allowance =? 0) then
      let half_max := int_half system_allowance in
      (* prioritize trimming system frames *)
      foldl mark_deleted (h, remaining)
            (slice system_frames half_max (- half_max))
    else
      foldl mark_deleted (h, remaining) system_frames in
  let h :=
    if negb (remaining =? 0) then
      let app_allowance := app_count - remaining in
      let half_max := int_half app_allowance in
      (foldl mark_deleted (h, remaining)
             (slice app_frames half_max (- half_max))).1
    else h in
  (h, List.filter (λ x, negb (truthy (obj_get h x "delete"))) frames).

(** [trim_frames(stacktrace)] as [describe_event_for_ai] calls it: on a list
    of objects it has just created, so all distinct, and with the default
    allowance.  The result is read back from the store. *)
Definition trim_new_frames (stacktrace : list dict) : list dict :=
  let h : store := map_seq 0 stacktrace in
  let '(h', kept) := trim_frames h (seq 0 (length stacktrace))
                                 MAX_STACKTRACE_FRAMES in
  map (obj h') kept.

(** *** describe_event_for_ai *)

(** The event payload ([event.data]) as the function reads it.  [tags] is
    [event["tags"]], [None] when the payload has no such key; [fields] holds
    the other keys (["exception"], ["message"], ...).  A tag is a pair of
    strings, as the event schema has it; the model takes that as the type of
    [tags], since [sorted] compares the pairs with each other. *)
Record event_data : Type := EventData {
  tags : option (list (string * string));
  fields : dict;
}.

(** The order of [sorted] on tags: pairs compare by key, then by value;
    strings compare by code point, which on UTF-8 is the order of the bytes. *)
Definition tag_leb (a b : string * string) : bool :=
  if String.eqb a.1 b.1 then String.leb a.2 b.2 else String.leb a.1 b.1.

Definition tag_le (a b : string * string) : Prop := tag_leb a b = true.

#[global] Instance tag_le_dec : RelDecision tag_le.
Proof. intros a b. unfold tag_le. apply _. Defined.

(** [sorted(tags)]: the order is total and antisymmetric, so the sorted list
    does not depend on the algorithm (see [sorted_unique] below). *)
Definition sorted (l : list (string * string)) : list (string * string) :=
  merge_sort tag_le l.

(** [for tag_key, tag_value in ...: if tag_key not in BLOCKED_TAGS:
    tags[tag_key] = tag_value] *)
Definition add_tag (tags : dict) (tag : string * string) : dict :=
  if bool_decide (tag.1 ∈ BLOCKED_TAGS) then tags
  else dict_set tags tag.1 (VStr tag.2).

(** The body of [for frame in reversed(frames)], from the flag [first_in_app]
    to the new [stack_frame] and the flag after it. *)
Definition describe_frame (first_in_app : bool) (frame : value)
    : result (dict * bool) :=
  let stack_frame : dict := [] in
  let* func := get frame "function" VNone in
  let stack_frame := dict_set stack_frame "func" func in
  let* module := get frame "module" VNone in
  let stack_frame := dict_set stack_frame "module" module in
  let* filename := get frame "filename" VNone in
  let stack_frame := dict_set stack_frame "file" filename in
  let* lineno := get frame "lineno" VNone in
  let stack_frame := dict_set stack_frame "line" lineno in
  let* in_app := get frame "in_app" VNone in
  let stack_frame :=
    if truthy in_app then dict_set stack_frame "in_app" (VBool true)
    else stack_frame in
  let* in_app := getitem frame "in_app" in
  if truthy in_app then
    let '(stack_frame, first_in_app) :=
      if first_in_app
      then (dict_set stack_frame "crashed_here" (VBool true), false)
      else (stack_frame, first_in_app) in
    let* context_line := get frame "context_line" VNone in
    let* line := strip (or_else context_line (VStr "")) in
    let stack_frame :=
      if truthy (VStr line) then dict_set stack_frame "code" (VStr line)
      else stack_frame in
    Ok (stack_frame, first_in_app)
  else Ok (stack_frame, first_in_app).

(** The loop over the frames: [stacktrace] grows by one frame per step. *)
Fixpoint describe_frames (frames : list value) (first_in_app : bool)
    (stacktrace : list dict) : result (list dict) :=
  match frames with
  | [] => Ok stacktrace
  | frame :: frames' =>
      let* r := describe_frame first_in_app frame in
      describe_frames frames' r.2 (stacktrace ++ [r.1])
  end.

(** The body of [for idx, exc in enumerate(...)]. *)
Definition describe_exception (idx : Z) (exc : value) : result dict :=
  let exception : dict := [] in
  let exception :=
    if 0 <? idx
    then dict_set exception "raised_during_handling_of_previous_exception"
                  (VBool true)
    else exception in
  let exception := dict_set exception "number" (VInt (idx + 1)) in
  let* type := getitem exc "type" in
  let exception := dict_set exception "type" type in
  let* message := get exc "value" VNone in
  let exception := dict_set exception "message" message in
  let* mechanism := get exc "mechanism" VNone in
  let mechanism := or_else mechanism (VDict []) in
  let* exc_meta := get mechanism "meta" VNone in
  let exception :=
    if truthy exc_meta then dict_set exception "meta" exc_meta
    else exception in
  let* handled := get mechanism "handled" VNone in
  let exception :=
    if is_False handled then dict_set exception "unhandled" (VBool true)
    else exception in
  let* stacktrace := get exc "stacktrace" (VDict []) in
  let* frames := get stacktrace "frames" VNone in
  let first_in_app := false in
  if truthy frames then
    let* frames := reversed frames in
    (* TODO: consider truncating the stack *)
    let* stacktrace := describe_frames frames first_in_app [] in
    if truthy (VList (map VDict stacktrace))
    then Ok (dict_set exception "stacktrace"
                      (VList (map VDict (trim_new_frames stacktrace))))
    else Ok exception
  else Ok exception.

(** The loop over the exceptions, [idx] counting from the index of the first
    one of [excs]. *)
Fixpoint describe_exceptions (idx : Z) (excs : list value)
    (exceptions : list value) : result (list value) :=
  match excs with
  | [] => Ok exceptions
  | exc :: excs' =>
      let* exception := describe_exception idx exc in
      describe_exceptions (idx + 1) excs' (exceptions ++ [VDict exception])
  end.

Definition describe_event_for_ai (event : event_data) : result dict :=
  let* event_tags :=
    match tags event with
    | Some t => Ok t
    | None => Raise (KeyError (VStr "tags"))
    end in
  let tags := foldl add_tag [] (sorted event_tags) in
  let* values :=
    get (dict_get (fields event) "exception" (VDict [])) "values" (VList []) in
  let* values := slice_to values MAX_STACKTRACE_FRAMES in
  let* values := reversed values in
  let* exceptions := describe_exceptions 0 values [] in
  let data : dict := [("tags", VDict tags); ("exceptions", VList exceptions)] in
  let msg := dict_get (fields event) "message" VNone in
  Ok (if truthy msg then dict_set data "message" msg else data).

(** *** The endpoint and its collaborators *)

Record RateLimit : Type := { limit : Z; window : Z }.

Inductive RateLimitCategory : Type := IP | USER | ORGANIZATION.

#[global] Instance RateLimitCategory_eq_dec : EqDecision RateLimitCategory.
Proof. solve_decision. Defined.

(** [openai.ChatCompletion.create(model=..., temperature=..., messages=...)]:
    each message is its role and its content. *)
Record ChatCompletionRequest : Type := {
  model : string;
  temperature : float;
  messages : list (string * text);
}.

Record HttpResponse : Type := {
  content : text;
  content_type : string;
  status : Z;
}.

(** An event of the event store: [event.get_primary_hash()], [event.data]. *)
Record Event : Type := { primary_hash : string; data : event_data }.

Record Request : Type := {
  GET : gmap string string;
  user : Z;
  organization : Z;
}.

Record Project : Type := { id : Z; project_organization : Z }.

(** What the handler reaches through narrow interfaces: the settings, the
    feature flags, the event store, the receivers of the policy signal, the
    random generator and the chat-completion API. *)
Record Collaborators : Type := {
  OPENAI_API_KEY : value;
  features_has : string → Z → Z → bool;
  get_event_by_id : Z → string → option Event;
  openai_policy_check_send : Z → list value;
  random_index : nat;
  ChatCompletion_create : ChatCompletionRequest → result value;
}.

(** [random.choice(l)] for a non-empty [l]: the element the generator picks. *)
Definition random_choice (c : Collaborators) (l : list string) : string :=
  nth (random_index c mod length l) l "".

(** The calls the handler makes to the cache, the API and the logger, in the
    order it makes them. *)
Inductive effect : Type :=
  | CacheGet (key : string)
  | CacheSet (key : string) (v : value) (timeout : Z)
  | ChatCompletionCreate (request : ChatCompletionRequest)
  | LoggerWarning (msg : string).

(** The cache: what each key holds, with the timeout it was stored under. *)
Abbreviation cache_state := (gmap string (value * Z)) (only parsing).

(** A handler step: from the cache before it to its outcome, the cache after
    it and the calls it made. *)
Definition M (A : Type) : Type :=
  cache_state → result A * cache_state * list effect.

Definition ret {A} (a : A) : M A := λ σ, (Ok a, σ, []).

Definition raise {A} (e : exn) : M A := λ σ, (Raise e, σ, []).

Definition lift {A} (r : result A) : M A := λ σ, (r, σ, []).

Definition bindM {A B} (m : M A) (k : A → M B) : M B := λ σ,
  match m σ with
  | (Ok a, σ1, t1) => let '(r, σ2, t2) := k a σ1 in (r, σ2, t1 ++ t2)
  | (Raise e, σ1, t1) => (Raise e, σ1, t1)
  end.

Notation "'do*' x ':=' e 'in' k" := (bindM e (λ x, k))
  (at level 10, x name, e at level 100, k at level 200, only parsing).

(** What [cache.get(key)] returns: [None] when the cache holds nothing under
    [key]. *)
Definition cached (σ : cache_state) (key : string) : value :=
  match σ !! key with
  | Some entry => entry.1
  | None => VNone
  end.

(** [cache.get(key)] *)
Definition cache_get (key : string) : M value := λ σ,
  (Ok (cached σ key), σ, [CacheGet key]).

(** [cache.set(key, v, timeout)] *)
Definition cache_set (key : string) (v : value) (timeout : Z) : M unit := λ σ,
  (Ok tt, <[key := (v, timeout)]> σ, [CacheSet key v timeout]).

Definition chat_completion_create (c : Collaborators)
    (request : ChatCompletionRequest) : M value := λ σ,
  (ChatCompletion_create c request, σ, [ChatCompletionCreate request]).

Definition logger_warning (msg : string) : M unit := λ σ,
  (Ok tt, σ, [LoggerWarning msg]).

Module EventAiSuggestedFixEndpoint.

Definition private : bool := true.

Definition enforce_rate_limit : bool := true.

Definition rate_limits : list (string * list (RateLimitCategory * RateLimit)) :=
  [ ("GET",
     [ (IP, {| limit := 5; window := 1 |});
       (USER, {| limit := 5; window := 1 |});
       (ORGANIZATION, {| limit := 5; window := 1 |}) ]) ].

(** ["ai:" + event.get_primary_hash()] *)
Definition cache_key (event : Event) : string := "ai:" +:+ primary_hash event.

(** The arguments of [openai.ChatCompletion.create]. *)
Definition completion_request (prompt : string) (event_info : dict)
    : ChatCompletionRequest :=
  {| model := "gpt-3.5-turbo";
     temperature := 0.5%float;
     messages := [ ("system", Str prompt);
                   ("user", json_dumps (VDict event_info)) ] |}.

(** [response["choices"][0]["message"]["content"]] *)
Definition reply_content (response : value) : result value :=
  let* choices := getitem response "choices" in
  let* choice := getindex choices 0 in
  let* message := getitem choice "message" in
  getitem message "content".

(** [HttpResponse(json.dumps({"suggestion": suggestion}),
    content_type="application/json")], with the default status. *)
Definition suggestion_response (suggestion : value) : HttpResponse :=
  {| content := json_dumps (VDict [("suggestion", suggestion)]);
     content_type := "application/json";
     status := 200 |}.

(** [HttpResponse(json.dumps({"restriction": policy_failure}),
    content_type="application/json", status=403)] *)
Definition restriction_response (policy_failure : string) : HttpResponse :=
  {| content := json_dumps (VDict [("restriction", VStr policy_failure)]);
     content_type := "application/json";
     status := 403 |}.

(** [PROMPT.replace("___FUN_PROMPT___", random.choice(FUN_PROMPT_CHOICES))] *)
Definition fun_prompt (c : Collaborators) : string :=
  str_replace PROMPT "___FUN_PROMPT___" (random_choice c FUN_PROMPT_CHOICES).

(** The handler from the cache lookup on: the part that runs once the request
    has passed the policy check. *)
Definition suggest (c : Collaborators) (event : Event) : M HttpResponse :=
  (* Cache the suggestion for a certain amount by primary hash, so even when
     new events come into the group, we are sharing the same response. *)
  let cache_key := cache_key event in
  do* suggestion := cache_get cache_key in
  do* suggestion :=
    if is_None suggestion then
      let prompt := fun_prompt c in
      do* event_info := lift (describe_event_for_ai (data event)) in
      do* response :=
        chat_completion_create c (completion_request prompt event_info) in
      do* suggestion := lift (reply_content response) in
      do* _ := cache_set cache_key suggestion 300 in
      ret suggestion
    else ret suggestion in
  ret (suggestion_response suggestion).

Definition get (c : Collaborators) (request : Request) (project : Project)
    (event_id : string) : M HttpResponse :=
  (* To use this feature you need the feature enabled and openai needs to be
     configured *)
  if negb (truthy (OPENAI_API_KEY c))
     || negb (features_has c "organizations:open-ai-suggestion"
                           (project_organization project) (user request))
  then raise ResourceDoesNotExist else
  match get_event_by_id c (id project) event_id with
  | None => raise ResourceDoesNotExist
  | Some event =>
      (* Check the OpenAI access policy *)
      let policy :=
        get_openai_policy (openai_policy_check_send c)
                          (organization request) in
      do* policy_failure :=
        if eq_str policy "subprocessor" then ret (Some "subprocessor")
        else if eq_str policy "individual_consent" then
          if negb (bool_decide (GET request !! "consent" = Some "yes"))
          then ret (Some "individual_consent")
          else ret None
        else if eq_str policy "allowed" then ret None
        else
          do* _ := logger_warning "Unknown OpenAI policy state" in
          ret None in
      match policy_failure with
      | Some policy_failure => ret (restriction_response policy_failure)
      | None => suggest c event
      end
  end.

End EventAiSuggestedFixEndpoint.

End EventAiSuggestedFix.

(** ** src/sentry/search/eap/columns.py *)

Module Columns.

(** The validators the table names; they live in [sentry.utils.validators]. *)
Inductive validator_fn : Type := is_span_id | is_event_id.

(** The storage types the table names ([sentry.search.eap.constants]). *)
Inductive internal_type_const : Type := INT.

Record ResolvedColumn : Type := {
  (* The alias for this column *)
  public_alias : string;
  (* The internal rpc alias for this column *)
  internal_name : string;
  (* The public type for this column *)
  search_type : string;
  (* The internal rpc type for this column, optional as it can mostly be
     inferred from search_type *)
  internal_type : option internal_type_const;
  (* Processor is the function run in the post process step to transform a
     row into the final result *)
  processor : option (value → value);
  (* Validator to check if the value in a query is correct *)
  validator : option validator_fn;
}.

(** [ResolvedColumn(public_alias=..., internal_name=..., search_type=...)],
    the optional fields at their default [None]. *)
Definition column (public_alias internal_name search_type : string)
    : ResolvedColumn :=
  {| public_alias := public_alias;
     internal_name := internal_name;
     search_type := search_type;
     internal_type := None;
     processor := None;
     validator := None |}.

Definition with_validator (v : validator_fn) (c : ResolvedColumn)
    : ResolvedColumn :=
  {| public_alias := public_alias c;
     internal_name := internal_name c;
     search_type := search_type c;
     internal_type := internal_type c;
     processor := processor c;
     validator := Some v |}.

Definition with_internal_type (t : internal_type_const) (c : ResolvedColumn)
    : ResolvedColumn :=
  {| public_alias := public_alias c;
     internal_name := internal_name c;
     search_type := search_type c;
     internal_type := Some t;
     processor := processor c;
     validator := validator c |}.

(** The list the comprehension of [SPAN_COLUMN_DEFINITIONS] runs over. *)
Definition span_columns : list ResolvedColumn :=
  [ with_validator is_span_id (column "id" "span_id" "string");
    column "organization.id" "organization_id" "string";
    column "span.action" "action" "string";
    column "span.description" "name" "string";
    column "description" "name" "string";
    (* Message maps to description, this is to allow wildcard searching *)
    column "message" "name" "string";
    column "span.domain" "attr_str[domain]" "string";
    column "span.group" "attr_str[group]" "string";
    column "span.op" "attr_str[op]" "string";
    column "span.category" "attr_str[category]" "string";
    column "span.self_time" "exclusive_time_ms" "duration";
    column "span.status" "attr_str[status]" "string";
    with_validator is_event_id (column "trace" "trace_id" "string");
    column "messaging.destination.name" "attr_str[messaging.destination.name]"
           "string";
    column "messaging.message.id" "attr_str[messaging.message.id]" "string";
    column "span.status_code" "attr_str[status_code]" "string";
    column "replay.id" "attr_str[replay_id]" "string";
    column "span.ai.pipeline.group" "attr_str[ai_pipeline_group]" "string";
    column "trace.status" "attr_str[trace.status]" "string";
    column "browser.name" "attr_str[browser.name]" "string";
    column "ai.total_cost" "attr_num[ai.total_cost]" "number";
    column "ai.total_tokens.used" "attr_num[ai_total_tokens_used]" "number";
    with_internal_type INT (column "project" "project_id" "string");
    with_internal_type INT (column "project.slug" "project_id" "string") ].

(** [{column.public_alias: column for column in columns}]: the items are
    inserted in order, so a later column replaces an earlier one with the same
    alias. *)
Definition by_public_alias (columns : list ResolvedColumn)
    : gmap string ResolvedColumn :=
  foldl (λ d column, <[public_alias column := column]> d) ∅ columns.

Definition SPAN_COLUMN_DEFINITIONS : gmap string ResolvedColumn :=
  by_public_alias span_columns.

(** *** The methods of ResolvedColumn

    What lies outside these sources is taken as given: what the validators
    of [sentry.utils.validators] answer, the attribute types of the RPC
    protocol and the table [constants.TYPE_MAP]. *)

(** The outcome of a call that may raise [E]. *)
Inductive raises (E A : Type) : Type :=
  | Returns (a : A)
  | Raises (e : E).
Arguments Returns {E A} a.
Arguments Raises {E A} e.

(** [InvalidSearchQuery(f"{value} is an invalid value for {self.public_alias}")],
    kept as the two parts of its message. *)
Inductive InvalidSearchQuery : Type :=
  | invalid_value (v : value) (public_alias : string).

(** [ResolvedColumn.validate]: [call] is what calling a validator on a value
    answers. *)
Definition validate (call : validator_fn → value → bool)
    (self : ResolvedColumn) (v : value) : raises InvalidSearchQuery unit :=
  match validator self with
  | Some f =>
      if negb (call f v)
      then Raises (invalid_value v (public_alias self))
      else Returns tt
  | None => Returns tt
  end.

(** [AttributeKey(name=..., type=...)] over the attribute types [T]. *)
Record AttributeKey (T : Type) : Type := {
  name : string;
  type : T;
}.
Arguments name {T} _.
Arguments type {T} _.

(** [ResolvedColumn.proto_definition]: [type_of] gives the attribute type a
    constant of [constants] stands for; [TYPE_MAP[search_type]] raises
    [KeyError(search_type)] when the table has no such key, and is only
    evaluated when [internal_type] is [None]. *)
Definition proto_definition {T} (type_of : internal_type_const → T)
    (TYPE_MAP : gmap string T) (self : ResolvedColumn)
    : raises string (AttributeKey T) :=
  match internal_type self with
  | Some t => Returns {| name := internal_name self; type := type_of t |}
  | None =>
      match TYPE_MAP !! search_type self with
      | Some t => Returns {| name := internal_name self; type := t |}
      | None => Raises (search_type self)
      end
  end.

(** *** Virtual contexts *)

Record VirtualColumnContext : Type := {
  from_column_name : string;
  to_column_name : string;
  value_map : gmap string string;
}.

(** [{str(project_id): project_name for project_id, project_name in
    project_id_map.items()}]: [str] of an integer is its decimal notation. *)
Definition project_value_map (project_id_map : gmap Z string)
    : gmap string string :=
  foldl (λ d item, <[pretty item.1 := item.2]> d) ∅
        (map_to_list project_id_map).

(** [project_context_constructor(column_name)], a function of
    [params.project_id_map]. *)
Definition project_context_constructor (column_name : string)
    (project_id_map : gmap Z string) : VirtualColumnContext :=
  {| from_column_name := "project_id";
     to_column_name := column_name;
     value_map := project_value_map project_id_map |}.

Definition VIRTUAL_CONTEXTS
    : gmap string (gmap Z string → VirtualColumnContext) :=
  <["project.slug" := project_context_constructor "project.slug"]>
    (<["project" := project_context_constructor "project"]> ∅).

End Columns.

(** * Properties *)

Import EventAiSuggestedFix.

(** ** Dictionaries *)

Section dict_facts.
Implicit Types (d : dict) (k : string) (v : value).

Lemma dict_lookup_set_eq d k v : dict_lookup (dict_set d k v) k = Some v.
Proof.
  induction d as [|[k' v'] d IH]; simpl.
  - by rewrite String.eqb_refl.
  - destruct (String.eqb k' k) eqn:E; simpl; by rewrite E.
Qed.

Lemma dict_lookup_set_ne d k k' v :
  k ≠ k' → dict_lookup (dict_set d k v) k' = dict_lookup d k'.
Proof.
  intros Hne. induction d as [|[k0 v0] d IH]; simpl.
  - destruct (String.eqb k k') eqn:E; [|done].
    by apply String.eqb_eq in E.
  - destruct (String.eqb k0 k) eqn:E; simpl; [|by rewrite IH].
    apply String.eqb_eq in E as ->.
    destruct (String.eqb k k') eqn:E'; [|done].
    by apply String.eqb_eq in E'.
Qed.

Lemma dict_lookup_None_keys d k : dict_lookup d k = None ↔ k ∉ dict_keys d.
Proof.
  induction d as [|[k' v'] d IH]; simpl.
  - split; [intros _; apply not_elem_of_nil | done].
  - rewrite not_elem_of_cons. destruct (String.eqb k' k) eqn:E.
    + apply String.eqb_eq in E as ->. split; [done | by intros [? _]].
    + apply String.eqb_neq in E. rewrite IH. naive_solver.
Qed.

Lemma dict_keys_set d k v :
  dict_keys (dict_set d k v) =
    if bool_decide (k ∈ dict_keys d) then dict_keys d else dict_keys d ++ [k].
Proof.
  induction d as [|[k' v'] d IH]; simpl; [done|].
  destruct (String.eqb k' k) eqn:E; simpl.
  - apply String.eqb_eq in E as ->.
    rewrite bool_decide_eq_true_2; [done | left].
  - apply String.eqb_neq in E. rewrite IH.
    destruct (bool_decide (k ∈ dict_keys d)) eqn:Hin.
    + apply bool_decide_eq_true_1 in Hin.
      rewrite bool_decide_eq_true_2; [done | by right].
    + apply bool_decide_eq_false_1 in Hin.
      rewrite bool_decide_eq_false_2; [done|].
      rewrite elem_of_cons. naive_solver.
Qed.

Lemma dict_set_elem_of d k v k' v' :
  (k', v') ∈ dict_set d k v → (k', v') ∈ d ∨ (k' = k ∧ v' = v).
Proof.
  induction d as [|[k0 v0] d IH]; simpl.
  - rewrite list_elem_of_singleton. naive_solver.
  - destruct (String.eqb k0 k) eqn:E; rewrite !elem_of_cons.
    + apply String.eqb_eq in E as ->. naive_solver.
    + naive_solver.
Qed.
End dict_facts.

(** ** trim_frames *)

Section trim_frames_facts.
Implicit Types (h : gmap nat dict) (frames sel : list nat) (x : nat).

Lemma classify_frames_len h frames acc :
  (foldl (classify h) acc frames).1.1 = acc.1.1 + Z.of_nat (length frames).
Proof.
  revert acc. induction frames as [|frame frames IH]; intros [[n a] s].
  - simpl. lia.
  - simpl foldl. rewrite IH. unfold classify.
    destruct (truthy _); simpl; lia.
Qed.

Lemma classify_app_system h frames acc :
  (foldl (classify h) acc frames).1.2 =
    acc.1.2 ++ List.filter (λ x, truthy (obj_get h x "in_app")) frames ∧
  (foldl (classify h) acc frames).2 =
    acc.2 ++ List.filter (λ x, negb (truthy (obj_get h x "in_app"))) frames.
Proof.
  revert acc. induction frames as [|frame frames IH]; intros [[n a] s].
  - simpl. by rewrite !app_nil_r.
  - cbn [foldl]. destruct (IH (classify h (n, a, s) frame)) as [E1 E2].
    rewrite E1, E2. unfold classify. simpl List.filter.
    destruct (truthy _); simpl; by rewrite <- ?app_assoc.
Qed.

(** What a run of [trim_frames] may do to the store: an object is left as
    it was, or carries the mark. *)
Definition marked_or_same h h' : Prop :=
  ∀ x, obj h' x = obj h x ∨ obj_get h' x "delete" = VBool true.

Lemma marked_or_same_refl h : marked_or_same h h.
Proof. intros x. by left. Qed.

Lemma obj_set_eq h x k v : obj (obj_set h x k v) x = dict_set (obj h x) k v.
Proof. unfold obj, obj_set. by rewrite lookup_insert_eq. Qed.

Lemma obj_set_ne h x y k v : x ≠ y → obj (obj_set h x k v) y = obj h y.
Proof. intros. unfold obj, obj_set. by rewrite lookup_insert_ne. Qed.

Lemma mark_deleted_marked_or_same h0 sel h n :
  marked_or_same h0 h →
  marked_or_same h0 (foldl mark_deleted (h, n) sel).1.
Proof.
  revert h n. induction sel as [|y sel IH]; intros h n Hh; [done|].
  simpl. apply IH. intros x. destruct (decide (x = y)) as [->|Hne].
  - right. unfold obj_get, dict_get.
    by rewrite obj_set_eq, dict_lookup_set_eq.
  - unfold obj_get. rewrite obj_set_ne by done. apply Hh.
Qed.

Lemma mark_deleted_remaining sel (acc : gmap nat dict * Z) :
  (foldl mark_deleted acc sel).2 = acc.2 - Z.of_nat (length sel).
Proof.
  revert acc. induction sel as [|y sel IH]; intros acc; cbn [foldl].
  - simpl. lia.
  - rewrite IH. simpl. lia.
Qed.

Lemma filter_sublist {A} (p : A → bool) (l : list A) :
  List.filter p l `sublist_of` l.
Proof.
  induction l as [|a l IH]; simpl; [constructor|].
  destruct (p a); by constructor.
Qed.

(** The frames [trim_frames] returns are frames of its argument, in their
    order, and it has not touched the objects it returns. *)
Lemma trim_frames_kept h frames frame_allowance :
  let r := trim_frames h frames frame_allowance in
  r.2 `sublist_of` frames ∧ Forall (λ x, obj r.1 x = obj h x) r.2.
Proof.
  unfold trim_frames.
  destruct (foldl (classify h) (0, [], []) frames) as [[n a] s].
  destruct (n <=? frame_allowance); simpl.
  { split; [done | by apply Forall_forall]. }
  set (p1 := if negb (_ =? 0) then _ else _).
  assert (marked_or_same h p1.1) as H1.
  { subst p1. destruct (negb _);
      apply mark_deleted_marked_or_same, marked_or_same_refl. }
  destruct p1 as [h1 r1]. simpl in H1.
  set (h2 := if negb (r1 =? 0) then _ else _).
  assert (marked_or_same h h2) as H2.
  { subst h2. destruct (negb _); [|done].
    by apply mark_deleted_marked_or_same. }
  clearbody h2. simpl. split; [apply filter_sublist|].
  apply Forall_forall. intros x Hx.
  apply list_elem_of_In, filter_In in Hx as [_ Hx].
  destruct (H2 x) as [Hsame|Hmark]; [done|].
  by rewrite Hmark in Hx.
Qed.

Lemma classify_length h frames :
  (foldl (classify h) (0, [], []) frames).1.1 = Z.of_nat (length frames).
Proof. rewrite classify_frames_len. simpl. lia. Qed.

Lemma map_obj_map_seq (stacktrace : list dict) :
  map (obj (map_seq 0 stacktrace)) (seq 0 (length stacktrace)) = stacktrace.
Proof.
  apply list_eq. intros i.
  change (map ?f ?l) with (f <$> l). rewrite list_lookup_fmap.
  destruct (decide (i < length stacktrace)%nat) as [Hlt|Hge].
  - rewrite lookup_seq_lt by done. simpl. unfold obj.
    rewrite lookup_map_seq_0.
    destruct (lookup_lt_is_Some_2 stacktrace i Hlt) as [d Hd]. by rewrite Hd.
  - rewrite lookup_seq_ge by lia. simpl. symmetry.
    apply lookup_ge_None. lia.
Qed.

(** On the frames of a new stack trace, trimming only drops frames. *)
Lemma trim_new_frames_sublist (stacktrace : list dict) :
  trim_new_frames stacktrace `sublist_of` stacktrace.
Proof.
  unfold trim_new_frames.
  pose proof (trim_frames_kept (map_seq 0 stacktrace)
                (seq 0 (length stacktrace)) MAX_STACKTRACE_FRAMES) as [Hsub Hsame].
  destruct (trim_frames _ _ _) as [h' kept]. simpl in Hsub, Hsame.
  change (map ?f ?l) with (f <$> l).
  rewrite (Forall_fmap_ext_1 (obj h') (obj (map_seq 0 stacktrace)) kept Hsame).
  rewrite <- (map_obj_map_seq stacktrace) at 2.
  by apply fmap_sublist.
Qed.

End trim_frames_facts.

(** C6: when the list of frames is no longer than [frame_allowance],
    [trim_frames] returns its argument and leaves every frame as it was:
    trimming is the identity when nothing has to be trimmed. *)
Theorem trim_frames_identity (h : gmap nat dict) (frames : list nat)
    (frame_allowance : Z) :
  Z.of_nat (length frames) ≤ frame_allowance →
  trim_frames h frames frame_allowance = (h, frames).
Proof.
  intros Hle. unfold trim_frames.
  pose proof (classify_length h frames) as Hlen.
  destruct (foldl (classify h) (0, [], []) frames) as [[n a] s].
  simpl in Hlen. subst n.
  by rewrite (proj2 (Z.leb_le _ _) Hle).
Qed.

(** Three frames, the first from app code, under the default allowance. *)
Definition three_frames : gmap nat dict :=
  map_seq 0 [ [("func", VStr "main"); ("in_app", VBool true)];
              [("func", VStr "call")];
              [("func", VStr "send")] ].

Lemma trim_frames_identity_witness :
  Z.of_nat (length [0; 1; 2]%nat) ≤ MAX_STACKTRACE_FRAMES ∧
  trim_frames three_frames [0; 1; 2]%nat MAX_STACKTRACE_FRAMES
    = (three_frames, [0; 1; 2]%nat).
Proof.
  split.
  - vm_compute. discriminate.
  - apply (trim_frames_identity three_frames [0; 1; 2]%nat).
    vm_compute. discriminate.
Defined.

(** The frames of a stack trace with [n_app] frames from app code followed by
    [n_system] other frames, as new objects 0, 1, ... of a store. *)
Definition stack_of (n_app n_system : nat) : gmap nat dict :=
  map_seq 0 (replicate n_app [("func", VStr "f"); ("in_app", VBool true)]
             ++ replicate n_system [("func", VStr "g")]).

(** C1: [trim_frames] does not keep to its allowance.  With 29 app frames and
    29 system frames the system allowance is 1, so [half_max] is 0 and the
    slice [system_frames[0:-0]] is empty; the app allowance is then 1, and
    [app_frames[0:-0]] is empty too: all 58 frames come back, 28 more than
    the default allowance of 30.  Two system frames under an allowance of 1
    come back as well. *)
Theorem trim_frames_exceeds_allowance :
  (trim_frames (stack_of 29 29) (seq 0 58) MAX_STACKTRACE_FRAMES).2 = seq 0 58 ∧
  (Z.of_nat (length (seq 0 58)) > MAX_STACKTRACE_FRAMES) ∧
  (trim_frames (stack_of 0 2) (seq 0 2) 1).2 = seq 0 2.
Proof. by vm_compute. Qed.

(** ** sorted *)

Section sorted_facts.
Implicit Types (a b c : string * string) (l : list (string * string)).

Lemma leb_le (s1 s2 : string) : String.leb s1 s2 = true ↔ String.le s1 s2.
Proof. unfold String.le. by rewrite Is_true_true. Qed.

#[global] Instance tag_le_total : Total tag_le.
Proof.
  intros [k1 v1] [k2 v2]. unfold tag_le, tag_leb. simpl.
  destruct (String.eqb k1 k2) eqn:E.
  - apply String.eqb_eq in E as ->. rewrite String.eqb_refl, !leb_le.
    apply (total String.le).
  - rewrite String.eqb_sym, E, !leb_le. apply (total String.le).
Qed.

#[global] Instance tag_le_antisymm : AntiSymm (=) tag_le.
Proof.
  intros [k1 v1] [k2 v2]. unfold tag_le, tag_leb. simpl.
  destruct (String.eqb k1 k2) eqn:E.
  - apply String.eqb_eq in E as ->. rewrite String.eqb_refl, !leb_le.
    intros H1 H2. f_equal. by apply (anti_symm String.le).
  - rewrite String.eqb_sym, E, !leb_le. intros H1 H2.
    apply String.eqb_neq in E. destruct E. by apply (anti_symm String.le).
Qed.

#[global] Instance tag_le_trans : Transitive tag_le.
Proof.
  intros [k1 v1] [k2 v2] [k3 v3]. unfold tag_le, tag_leb. simpl.
  destruct (String.eqb k1 k2) eqn:E12.
  { apply String.eqb_eq in E12 as ->.
    destruct (String.eqb k2 k3) eqn:E23; [|done].
    rewrite !leb_le. apply transitivity. }
  destruct (String.eqb k2 k3) eqn:E23.
  { apply String.eqb_eq in E23 as ->. by rewrite E12. }
  rewrite !leb_le. intros H12 H23.
  apply String.eqb_neq in E12, E23.
  destruct (String.eqb k1 k3) eqn:E13.
  - apply String.eqb_eq in E13 as ->. destruct E12.
    by apply (anti_symm String.le).
  - rewrite leb_le. by transitivity k2.
Qed.

Lemma sorted_Sorted l : Sorted tag_le (sorted l).
Proof. apply (Sorted_merge_sort tag_le). Qed.

Lemma sorted_Permutation l : sorted l ≡ₚ l.
Proof. apply (merge_sort_Permutation tag_le). Qed.

(** [sorted l] is the only sorted arrangement of [l]: whatever algorithm
    sorts the tags, this is its result. *)
Lemma sorted_unique l l' : Sorted tag_le l' → l' ≡ₚ l → l' = sorted l.
Proof.
  intros Hs Hp. apply (Sorted_unique tag_le); [done | apply sorted_Sorted |].
  by rewrite sorted_Permutation.
Qed.

Lemma StronglySorted_filter (P : string * string → Prop)
    `{!∀ a, Decision (P a)} l :
  StronglySorted tag_le l → StronglySorted tag_le (filter P l).
Proof.
  induction 1 as [|a l Hl IH Ha]; [constructor|].
  destruct (decide (P a)).
  - rewrite filter_cons_True by done. constructor; [done|].
    apply Forall_forall. intros b [_ Hb]%list_elem_of_filter.
    by apply (proj1 (Forall_forall _ _) Ha).
  - by rewrite filter_cons_False.
Qed.

(** Sorting and dropping tags commute. *)
Lemma sorted_filter (P : string * string → Prop) `{!∀ a, Decision (P a)} l :
  filter P (sorted l) = sorted (filter P l).
Proof.
  apply sorted_unique.
  - apply StronglySorted_Sorted, StronglySorted_filter.
    apply (Sorted_StronglySorted tag_le), sorted_Sorted.
  - by rewrite sorted_Permutation.
Qed.

End sorted_facts.

(** ** The tags of a description *)

(** A tag the description keeps. *)
Definition unblocked (t : string * string) : Prop := t.1 ∉ BLOCKED_TAGS.

#[global] Instance unblocked_dec t : Decision (unblocked t).
Proof. unfold unblocked. apply _. Defined.

(** The strict order of strings. *)
Definition str_lt (s1 s2 : string) : Prop := String.le s1 s2 ∧ s1 ≠ s2.

(** Two lists of tags with the same keys at the same places, and the same
    values wherever the key is not blocked. *)
Definition same_unblocked_tags (t1 t2 : list (string * string)) : Prop :=
  Forall2 (λ a b, a.1 = b.1 ∧ (a.1 ∈ BLOCKED_TAGS ∨ a.2 = b.2)) t1 t2.

(** Two events that differ only in the values of blocked tags. *)
Definition differ_in_blocked_tags_only (e1 e2 : event_data) : Prop :=
  fields e1 = fields e2 ∧ option_Forall2 same_unblocked_tags (tags e1) (tags e2).

Section tag_facts.
Implicit Types (a b : string * string) (l : list (string * string)).
Implicit Types (acc : dict) (k : string).

Lemma tag_le_fst a b : tag_le a b → String.le a.1 b.1.
Proof.
  unfold tag_le, tag_leb. destruct (String.eqb a.1 b.1) eqn:E.
  - apply String.eqb_eq in E as ->. done.
  - by rewrite leb_le.
Qed.

Lemma add_tag_blocked acc a : ¬ unblocked a → add_tag acc a = acc.
Proof.
  intros H. unfold add_tag. rewrite bool_decide_eq_true_2; [done|].
  unfold unblocked in H. by destruct (decide (a.1 ∈ BLOCKED_TAGS)).
Qed.

Lemma add_tag_unblocked acc a :
  unblocked a → add_tag acc a = dict_set acc a.1 (VStr a.2).
Proof. intros H. unfold add_tag. by rewrite bool_decide_eq_false_2. Qed.

(** The loop over the tags sees the blocked ones and skips them. *)
Lemma add_tag_filter l acc :
  foldl add_tag acc l = foldl add_tag acc (filter unblocked l).
Proof.
  revert acc. induction l as [|a l IH]; intros acc; [done|]. cbn [foldl].
  destruct (decide (unblocked a)).
  - rewrite filter_cons_True by done. cbn [foldl]. apply IH.
  - rewrite filter_cons_False, add_tag_blocked by done. apply IH.
Qed.

Lemma dict_keys_set_elem_of acc k k' v :
  k' ∈ dict_keys (dict_set acc k v) ↔ k' ∈ dict_keys acc ∨ k' = k.
Proof.
  rewrite dict_keys_set. case_bool_decide as Hin.
  - naive_solver.
  - rewrite elem_of_app, list_elem_of_singleton. naive_solver.
Qed.

Lemma add_tag_keys l acc k :
  k ∈ dict_keys (foldl add_tag acc l) ↔
    k ∈ dict_keys acc ∨ ((k ∉ BLOCKED_TAGS) ∧ k ∈ l.*1).
Proof.
  revert acc. induction l as [|a l IH]; intros acc.
  - simpl. rewrite elem_of_nil. naive_solver.
  - cbn [foldl]. rewrite IH, fmap_cons, elem_of_cons.
    destruct (decide (unblocked a)) as [Ha|Ha].
    + rewrite add_tag_unblocked, dict_keys_set_elem_of by done.
      unfold unblocked in Ha. naive_solver.
    + rewrite add_tag_blocked by done. unfold unblocked in Ha. naive_solver.
Qed.

(** A value the loop stores under a key is the value of a tag with that
    key. *)
Lemma add_tag_items l acc k v :
  (k, v) ∈ foldl add_tag acc l →
  (k, v) ∈ acc ∨ ∃ s, v = VStr s ∧ (k, s) ∈ l ∧ k ∉ BLOCKED_TAGS.
Proof.
  revert acc. induction l as [|a l IH]; intros acc; [by left|].
  cbn [foldl]. intros [Hacc | (s & -> & Hs & Hk)]%IH.
  - destruct (decide (unblocked a)) as [Ha|Ha].
    + rewrite add_tag_unblocked in Hacc by done.
      apply dict_set_elem_of in Hacc as [?|[-> ->]]; [by left|].
      right. exists a.2. split_and!; [done| |done].
      destruct a. apply list_elem_of_here.
    + rewrite add_tag_blocked in Hacc by done. by left.
  - right. exists s. split_and!; [done| |done]. by apply list_elem_of_further.
Qed.

Lemma add_tag_keys_sorted l acc :
  StronglySorted tag_le l →
  StronglySorted str_lt (dict_keys acc) →
  (∀ k a, k ∈ dict_keys acc → a ∈ l → String.le k a.1) →
  StronglySorted str_lt (dict_keys (foldl add_tag acc l)).
Proof.
  intros Hl. revert acc.
  induction Hl as [|a l Hl IH Ha]; intros acc Hacc Hle; [done|].
  cbn [foldl].
  assert (∀ b, b ∈ l → String.le a.1 b.1) as Hab.
  { intros b Hb. by apply tag_le_fst, (proj1 (Forall_forall _ _) Ha). }
  destruct (decide (unblocked a)) as [Hu|Hu].
  - rewrite add_tag_unblocked by done. apply IH.
    + rewrite dict_keys_set. case_bool_decide as Hin; [done|].
      apply StronglySorted_app_2; [|done|repeat constructor].
      intros k1 k2 Hk1 ->%list_elem_of_singleton. split.
      * apply Hle; [done | apply list_elem_of_here].
      * by intros ->.
    + intros k b [Hk| ->]%dict_keys_set_elem_of Hb; [|by apply Hab].
      apply Hle; [done | by apply list_elem_of_further].
  - rewrite add_tag_blocked by done. apply IH; [done|].
    intros k b Hk Hb. apply Hle; [done | by apply list_elem_of_further].
Qed.

Lemma same_unblocked_tags_filter t1 t2 :
  same_unblocked_tags t1 t2 → filter unblocked t1 = filter unblocked t2.
Proof.
  induction 1 as [|[k1 v1] [k2 v2] t1 t2 [Hk Hv] _ IH]; [done|].
  simpl in Hk, Hv. subst k2. destruct (decide (k1 ∈ BLOCKED_TAGS)) as [Hb|Hb].
  - by rewrite !filter_cons_False by (unfold unblocked; simpl; tauto).
  - destruct Hv as [?| ->]; [done|].
    rewrite !filter_cons_True by done. by f_equal.
Qed.

(** The tags of the description depend on the unblocked tags only. *)
Lemma described_tags_same t1 t2 :
  same_unblocked_tags t1 t2 →
  foldl add_tag [] (sorted t1) = foldl add_tag [] (sorted t2).
Proof.
  intros H. rewrite (add_tag_filter (sorted t1)), (add_tag_filter (sorted t2)).
  by rewrite !sorted_filter, (same_unblocked_tags_filter t1 t2).
Qed.

Lemma described_tags_sorted l :
  StronglySorted str_lt (dict_keys (foldl add_tag [] (sorted l))).
Proof.
  apply add_tag_keys_sorted.
  - apply (Sorted_StronglySorted tag_le), sorted_Sorted.
  - constructor.
  - intros k a Hk. by apply elem_of_nil in Hk.
Qed.

End tag_facts.

(** ** describe_event_for_ai *)

Section describe_facts.
Implicit Types (frame exc : value) (d : dict).

Definition no_crashed_here (d : dict) : Prop :=
  dict_lookup d "crashed_here" = None.

Lemma describe_frame_no_crashed_here frame stack_frame first_in_app :
  describe_frame false frame = Ok (stack_frame, first_in_app) →
  first_in_app = false ∧ no_crashed_here stack_frame.
Proof.
  unfold describe_frame, no_crashed_here. destruct frame; try discriminate.
  simpl. destruct (dict_lookup d "in_app") as [in_app|]; [|discriminate].
  simpl. destruct (truthy in_app).
  - destruct (strip _) as [line|]; [|discriminate]. simpl.
    intros [= <- <-]. split; [done|].
    by destruct (negb _), (truthy _).
  - intros [= <- <-]. split; [done|]. by destruct (truthy _).
Qed.

Lemma describe_frames_no_crashed_here frames acc stacktrace :
  describe_frames frames false acc = Ok stacktrace →
  Forall no_crashed_here acc → Forall no_crashed_here stacktrace.
Proof.
  revert acc. induction frames as [|frame frames IH]; intros acc; simpl.
  - by intros [= <-].
  - destruct (describe_frame false frame) as [[stack_frame b]|] eqn:E;
      [|discriminate].
    apply describe_frame_no_crashed_here in E as [-> Hsf]. simpl.
    intros H Hacc. apply (IH _ H). apply Forall_app. split; [done|].
    by apply Forall_singleton.
Qed.

Lemma describe_exception_stacktrace idx exc exception :
  describe_exception idx exc = Ok exception →
  dict_lookup exception "stacktrace" = None ∨
  ∃ stacktrace,
    dict_lookup exception "stacktrace" = Some (VList (map VDict stacktrace)) ∧
    Forall no_crashed_here stacktrace.
Proof.
  unfold describe_exception. destruct exc; try discriminate.
  simpl. destruct (dict_lookup d "type") as [type|]; [|discriminate].
  simpl. destruct (get (or_else _ _) "meta" _) as [exc_meta|]; [|discriminate].
  simpl. destruct (get (or_else _ _) "handled" _) as [handled|]; [|discriminate].
  simpl. destruct (get (dict_get d "stacktrace" _) _ _) as [frames|]; [|discriminate].
  simpl.
  match goal with |- context [dict_set ?X "stacktrace" _] => set (e0 := X) end.
  assert (dict_lookup e0 "stacktrace" = None) as He0.
  { subst e0. by destruct (is_False _), (truthy exc_meta), (0 <? idx). }
  destruct (truthy frames); [|intros [= <-]; by left].
  destruct (reversed frames) as [rframes|]; [|discriminate]. simpl.
  destruct (describe_frames rframes false []) as [stacktrace|] eqn:E;
    [|discriminate].
  simpl. destruct (map VDict stacktrace) eqn:Hmap; intros [= <-]; [by left|].
  right. exists (trim_new_frames stacktrace). split.
  - apply dict_lookup_set_eq.
  - apply describe_frames_no_crashed_here in E; [|constructor].
    eapply Forall_forall. intros f Hf.
    eapply (Forall_forall no_crashed_here stacktrace); [done|].
    by apply (sublist_subseteq _ _ (trim_new_frames_sublist stacktrace)).
Qed.

(** An exception of the description has no stack trace, or one whose frames
    are free of the marker. *)
Definition exception_ok (v : value) : Prop :=
  ∃ exception, v = VDict exception ∧
    (dict_lookup exception "stacktrace" = None ∨
     ∃ stacktrace,
       dict_lookup exception "stacktrace"
         = Some (VList (map VDict stacktrace)) ∧
       Forall no_crashed_here stacktrace).

Lemma describe_exceptions_ok idx excs acc exceptions :
  describe_exceptions idx excs acc = Ok exceptions →
  Forall exception_ok acc → Forall exception_ok exceptions.
Proof.
  revert idx acc. induction excs as [|exc excs IH]; intros idx acc; simpl.
  - by intros [= <-].
  - destruct (describe_exception idx exc) as [exception|] eqn:E;
      [|discriminate].
    simpl. intros H Hacc. apply (IH _ _ H). apply Forall_app. split; [done|].
    apply Forall_singleton. exists exception. split; [done|].
    by apply describe_exception_stacktrace in E.
Qed.

(** The shape of a description: the tags, the exceptions, and the message when
    the event has a truthy one. *)
Definition description (tags : dict) (exceptions : list value) (msg : value)
    : dict :=
  let data := [("tags", VDict tags); ("exceptions", VList exceptions)] in
  if truthy msg then dict_set data "message" msg else data.

Lemma description_lookup tags exceptions msg :
  dict_lookup (description tags exceptions msg) "tags" = Some (VDict tags) ∧
  dict_lookup (description tags exceptions msg) "exceptions"
    = Some (VList exceptions).
Proof. unfold description. by destruct (truthy msg). Qed.

(** What a successful run went through. *)
Lemma describe_event_for_ai_Ok event data :
  describe_event_for_ai event = Ok data →
  ∃ event_tags values head rvalues exceptions,
    tags event = Some event_tags ∧
    get (dict_get (fields event) "exception" (VDict [])) "values" (VList [])
      = Ok values ∧
    slice_to values MAX_STACKTRACE_FRAMES = Ok head ∧
    reversed head = Ok rvalues ∧
    describe_exceptions 0 rvalues [] = Ok exceptions ∧
    data = description (foldl add_tag [] (sorted event_tags)) exceptions
                       (dict_get (fields event) "message" VNone).
Proof.
  unfold describe_event_for_ai.
  destruct (tags event) as [event_tags|]; [|discriminate]. simpl.
  destruct (get _ "values" _) as [values|] eqn:E1; [|discriminate]. simpl.
  destruct (slice_to values _) as [head|] eqn:E2; [|discriminate]. simpl.
  destruct (reversed head) as [rvalues|] eqn:E3; [|discriminate]. simpl.
  destruct (describe_exceptions 0 rvalues []) as [exceptions|] eqn:E;
    [|discriminate].
  simpl. intros [= <-]. by exists event_tags, values, head, rvalues, exceptions.
Qed.

End describe_facts.

(** C8: no stack frame of a description carries the ["crashed_here"] marker.
    The flag [first_in_app] starts as [False] for every exception and no
    assignment sets it, so the branch that adds the marker never runs. *)
Theorem describe_event_never_crashed_here (event : event_data)
    (data : dict) (exceptions : list value) (exception : dict)
    (stacktrace : list value) (frame : dict) :
  describe_event_for_ai event = Ok data →
  dict_lookup data "exceptions" = Some (VList exceptions) →
  VDict exception ∈ exceptions →
  dict_lookup exception "stacktrace" = Some (VList stacktrace) →
  VDict frame ∈ stacktrace →
  dict_lookup frame "crashed_here" = None.
Proof.
  intros Hrun Hexcs Hexc Hst Hframe.
  apply describe_event_for_ai_Ok in Hrun
    as (event_tags & values & head & rvalues & excs & _ & _ & _ & _ & Hd & ->).
  destruct (description_lookup (foldl add_tag [] (sorted event_tags)) excs
              (dict_get (fields event) "message" VNone)) as [_ Hl].
  rewrite Hl in Hexcs. injection Hexcs as <-.
  apply describe_exceptions_ok in Hd; [|constructor].
  apply (proj1 (Forall_forall _ _) Hd) in Hexc
    as (e & [= <-] & [Hnone | (st & Hsome & Hall)]).
  - by rewrite Hnone in Hst.
  - rewrite Hsome in Hst. injection Hst as <-.
    change (map VDict st) with (VDict <$> st) in Hframe.
    apply list_elem_of_fmap in Hframe as (f & [= <-] & Hf).
    by apply (proj1 (Forall_forall _ _) Hall).
Qed.

(** An event with one exception whose stack trace has a frame from app code
    and a library frame. *)
Definition crash_event : event_data :=
  {| tags := Some [("level", "error"); ("url", "http://example.org/")];
     fields :=
       [ ("exception",
          VDict [("values", VList [
            VDict [ ("type", VStr "ValueError");
                    ("value", VStr "bad input");
                    ("stacktrace", VDict [("frames", VList [
                       VDict [ ("function", VStr "send");
                               ("filename", VStr "lib.py");
                               ("lineno", VInt 7);
                               ("in_app", VBool false) ];
                       VDict [ ("function", VStr "handler");
                               ("filename", VStr "app.py");
                               ("lineno", VInt 10);
                               ("in_app", VBool true);
                               ("context_line", VStr "  x = parse(y)") ] ])])
                  ] ])]) ] |}.

(** With the flag set, the same frame from app code would carry the marker:
    the branch is there, it is only never taken. *)
Example describe_frame_first_in_app :
  describe_frame true
    (VDict [("function", VStr "handler"); ("in_app", VBool true)])
  = Ok ([ ("func", VStr "handler"); ("module", VNone); ("file", VNone);
          ("line", VNone); ("in_app", VBool true);
          ("crashed_here", VBool true) ], false).
Proof. reflexivity. Qed.

Lemma describe_event_never_crashed_here_witness :
  (∃ data, describe_event_for_ai crash_event = Ok data) ∧
  dict_lookup [ ("func", VStr "handler"); ("module", VNone);
                ("file", VStr "app.py"); ("line", VInt 10);
                ("in_app", VBool true); ("code", VStr "x = parse(y)") ]
              "crashed_here" = None.
Proof.
  split.
  - eexists. vm_compute. reflexivity.
  - eapply (describe_event_never_crashed_here crash_event).
    + vm_compute. reflexivity.
    + vm_compute. reflexivity.
    + apply list_elem_of_here.
    + vm_compute. reflexivity.
    + apply list_elem_of_here.
Defined.

(** C2: the description is sanitized.  (1) The tags of a description are the
    tags of the event whose key is not in [BLOCKED_TAGS]: no blocked key
    appears, every value kept is the value of a tag of the event, and the keys
    come strictly sorted.  (2) Two events that differ only in the values of
    blocked tags have the same description (or fail alike). *)
Theorem describe_event_sanitized :
  (∀ (event : event_data) (event_tags : list (string * string))
     (data described_tags : dict),
     tags event = Some event_tags →
     describe_event_for_ai event = Ok data →
     dict_lookup data "tags" = Some (VDict described_tags) →
     (∀ k, k ∈ dict_keys described_tags ↔
             (k ∉ BLOCKED_TAGS) ∧ k ∈ event_tags.*1) ∧
     (∀ k v, (k, v) ∈ described_tags →
             ∃ s, v = VStr s ∧ (k, s) ∈ event_tags) ∧
     StronglySorted str_lt (dict_keys described_tags)) ∧
  (∀ e1 e2 : event_data,
     differ_in_blocked_tags_only e1 e2 →
     describe_event_for_ai e1 = describe_event_for_ai e2).
Proof.
  split.
  - intros event event_tags data described_tags Htags Hrun Hlook.
    apply describe_event_for_ai_Ok in Hrun
      as (t & values & head & rvalues & excs & Ht & _ & _ & _ & _ & ->).
    rewrite Htags in Ht. injection Ht as <-.
    destruct (description_lookup (foldl add_tag [] (sorted event_tags)) excs
                (dict_get (fields event) "message" VNone)) as [Hl _].
    rewrite Hl in Hlook. injection Hlook as <-. split_and!.
    + intros k. rewrite add_tag_keys, elem_of_nil.
      rewrite (sorted_Permutation event_tags). naive_solver.
    + intros k v [Hnil | (s & -> & Hs & _)]%add_tag_items.
      * by apply elem_of_nil in Hnil.
      * exists s. split; [done|]. by rewrite <- (sorted_Permutation event_tags).
    + apply described_tags_sorted.
  - intros [t1 f1] [t2 f2] [Hf Ht]. simpl in Hf, Ht. subst f2.
    unfold describe_event_for_ai. simpl.
    destruct Ht as [t1 t2 Ht|]; [|done]. simpl.
    by rewrite (described_tags_same t1 t2).
Qed.

(** Two events of the same issue: the user and the release differ. *)
Definition tagged_event (user release : string) : event_data :=
  {| tags := Some [ ("user", user); ("level", "error"); ("release", release);
                    ("transaction", "/checkout"); ("level", "fatal") ];
     fields := [("message", VStr "checkout failed")] |}.

Lemma describe_event_sanitized_witness :
  describe_event_for_ai (tagged_event "id:1" "1.0")
    = Ok [ ("tags", VDict [ ("level", VStr "fatal");
                            ("transaction", VStr "/checkout") ]);
           ("exceptions", VList []);
           ("message", VStr "checkout failed") ] ∧
  StronglySorted str_lt ["level"; "transaction"] ∧
  describe_event_for_ai (tagged_event "id:1" "1.0")
    = describe_event_for_ai (tagged_event "id:2" "1.1").
Proof.
  destruct describe_event_sanitized as [Hone Htwo].
  assert (describe_event_for_ai (tagged_event "id:1" "1.0")
    = Ok [ ("tags", VDict [ ("level", VStr "fatal");
                            ("transaction", VStr "/checkout") ]);
           ("exceptions", VList []);
           ("message", VStr "checkout failed") ]) as Hrun.
  { vm_compute. reflexivity. }
  split_and!.
  - exact Hrun.
  - destruct (Hone (tagged_event "id:1" "1.0") _ _ _ eq_refl Hrun eq_refl)
      as (_ & _ & Hsorted).
    exact Hsorted.
  - apply Htwo. split; [reflexivity|]. constructor.
    assert ("user" ∈ BLOCKED_TAGS) as Huser.
    { apply (bool_decide_unpack _). vm_compute. exact I. }
    assert ("release" ∈ BLOCKED_TAGS) as Hrelease.
    { apply (bool_decide_unpack _). vm_compute. exact I. }
    constructor; [split; [reflexivity | by left] |].
    constructor; [split; [reflexivity | by right] |].
    constructor; [split; [reflexivity | by left] |].
    constructor; [split; [reflexivity | by right] |].
    constructor; [split; [reflexivity | by right] |].
    constructor.
Defined.

(** ** The span column registry *)

Import Columns.

Section column_facts.
Implicit Types (c : ResolvedColumn) (l : list ResolvedColumn) (k : string).
Implicit Types (d : gmap string ResolvedColumn).

(** The comprehension keeps, under each alias, the last column that has it. *)
Lemma by_public_alias_fold l d k :
  foldl (λ d column, <[public_alias column := column]> d) d l !! k =
    match last (filter (λ c, public_alias c = k) l) with
    | Some c => Some c
    | None => d !! k
    end.
Proof.
  revert d. induction l as [|a l IH]; intros d; [done|].
  cbn [foldl]. rewrite IH. destruct (decide (public_alias a = k)) as [Ha|Ha].
  - rewrite filter_cons_True by done.
    destruct (filter _ l) as [|b l'] eqn:Hl; simpl.
    + by rewrite Ha, lookup_insert_eq.
    + destruct (last (b :: l')) eqn:E; [done|]. by apply last_None in E.
  - rewrite filter_cons_False by done.
    by rewrite lookup_insert_ne.
Qed.

Lemma by_public_alias_lookup l k :
  by_public_alias l !! k = last (filter (λ c, public_alias c = k) l).
Proof.
  unfold by_public_alias. rewrite by_public_alias_fold, lookup_empty.
  by destruct (last _).
Qed.

Lemma by_public_alias_Some l k c :
  by_public_alias l !! k = Some c → public_alias c = k ∧ c ∈ l.
Proof.
  rewrite by_public_alias_lookup. intros H.
  assert (c ∈ filter (λ c, public_alias c = k) l) as Hc.
  { apply list_elem_of_lookup. rewrite last_lookup in H. eauto. }
  by apply list_elem_of_filter in Hc.
Qed.

Lemma by_public_alias_NoDup l c :
  NoDup (public_alias <$> l) → c ∈ l →
  by_public_alias l !! public_alias c = Some c.
Proof.
  rewrite by_public_alias_lookup.
  induction l as [|a l IH]; intros Hnd Hc; [by apply elem_of_nil in Hc|].
  rewrite fmap_cons in Hnd. apply NoDup_cons in Hnd as [Ha Hnd].
  apply elem_of_cons in Hc as [->|Hc].
  - rewrite filter_cons_True by done.
    assert (filter (λ c, public_alias c = public_alias a) l = []) as ->;
      [|done].
    destruct (filter _ l) as [|b l'] eqn:Hl; [done|].
    assert (b ∈ filter (λ c, public_alias c = public_alias a) l) as Hb.
    { rewrite Hl. apply list_elem_of_here. }
    apply list_elem_of_filter in Hb as [Heq Hb]. destruct Ha.
    rewrite <- Heq. by apply list_elem_of_fmap_2.
  - rewrite filter_cons_False; [by apply IH|].
    intros Heq. apply Ha. rewrite Heq. by apply list_elem_of_fmap_2.
Qed.

End column_facts.

(** C4: [SPAN_COLUMN_DEFINITIONS] is a well-formed map from public names to
    internal identifiers.  Under each key it holds the last column of the list
    with that alias; the column found under a key has the key as its
    [public_alias], a non-empty [internal_name], and is a column of the list;
    and every column of the list is found under its alias (no two share
    one). *)
Theorem span_column_definitions_well_formed :
  (∀ k, SPAN_COLUMN_DEFINITIONS !! k
          = last (filter (λ c, public_alias c = k) span_columns)) ∧
  (∀ k c, SPAN_COLUMN_DEFINITIONS !! k = Some c →
          public_alias c = k ∧ internal_name c ≠ "" ∧ c ∈ span_columns) ∧
  (∀ c, c ∈ span_columns →
        SPAN_COLUMN_DEFINITIONS !! public_alias c = Some c).
Proof.
  split_and!.
  - intros k. apply by_public_alias_lookup.
  - intros k c [Hk Hc]%by_public_alias_Some. split_and!; [done| |done].
    clear Hk. revert c Hc. apply Forall_forall.
    unfold span_columns. repeat (constructor; [discriminate|]). constructor.
  - intros c Hc. apply by_public_alias_NoDup; [|done].
    apply (bool_decide_unpack _). by vm_compute.
Qed.

(** ** The endpoint *)

Import EventAiSuggestedFixEndpoint.

(** [rate_limits[method][category]], when the class declares it. *)
Definition declared_rate_limit (method : string)
    (category : RateLimitCategory) : option RateLimit :=
  match list_find (λ m, m.1 = method) rate_limits with
  | Some (_, (_, limits)) =>
      match list_find (λ l, l.1 = category) limits with
      | Some (_, (_, rate_limit)) => Some rate_limit
      | None => None
      end
  | None => None
  end.

(** C7: the GET method is rate limited.  The class declares 5 requests per
    window of 1 second for each of the categories IP, USER and ORGANIZATION,
    and sets [enforce_rate_limit]. *)
Theorem get_is_rate_limited :
  enforce_rate_limit = true ∧
  ∀ category : RateLimitCategory,
    declared_rate_limit "GET" category = Some {| limit := 5; window := 1 |}.
Proof. split; [done|]. by intros []. Qed.

(** The parts of a run of the handler. *)
Definition outcome {A} (run : result A * gmap string (value * Z) * list effect)
    : result A := run.1.1.

Definition cache_after {A}
    (run : result A * gmap string (value * Z) * list effect)
    : gmap string (value * Z) := run.1.2.

Definition effects {A} (run : result A * gmap string (value * Z) * list effect)
    : list effect := run.2.

(** The requests sent to the chat-completion API, and the writes to the
    cache, among the calls of a run. *)
Definition api_calls (t : list effect) : list ChatCompletionRequest :=
  omap (λ e, match e with ChatCompletionCreate r => Some r | _ => None end) t.

Definition cache_writes (t : list effect) : list (string * value * Z) :=
  omap (λ e, match e with CacheSet k v n => Some (k, v, n) | _ => None end) t.

(** The request gets as far as the policy check: the API key is configured,
    the feature is enabled and the event exists. *)
Definition reaches_policy_check (c : Collaborators) (request : Request)
    (project : Project) (event_id : string) (event : Event) : Prop :=
  truthy (OPENAI_API_KEY c) = true ∧
  features_has c "organizations:open-ai-suggestion"
               (project_organization project) (user request) = true ∧
  get_event_by_id c (id project) event_id = Some event.

Definition policy_of (c : Collaborators) (request : Request) : value :=
  get_openai_policy (openai_policy_check_send c) (organization request).

(** The policy is ['subprocessor'], or it is ['individual_consent'] and the
    ['consent'] query parameter is not ['yes']. *)
Definition restricted (c : Collaborators) (request : Request) : Prop :=
  policy_of c request = VStr "subprocessor" ∨
  (policy_of c request = VStr "individual_consent" ∧
   GET request !! "consent" ≠ Some "yes").

(** The warning an unknown policy leaves in the log. *)
Definition policy_warning (policy : value) : list effect :=
  if eq_str policy "subprocessor" || eq_str policy "individual_consent"
     || eq_str policy "allowed"
  then [] else [LoggerWarning "Unknown OpenAI policy state"].

Section endpoint_facts.
Context (c : Collaborators) (request : Request) (project : Project).
Context (event_id : string) (σ : gmap string (value * Z)).

Lemma eq_str_spec (v : value) (s : string) : eq_str v s = true ↔ v = VStr s.
Proof.
  destruct v; simpl; try (split; [discriminate | by intros [=]]).
  rewrite String.eqb_eq. split; [by intros -> | by intros [= ->]].
Qed.

Lemma eq_str_false (v : value) (s : string) : eq_str v s = false ↔ v ≠ VStr s.
Proof. rewrite <- eq_str_spec. by destruct (eq_str v s). Qed.

(** Without the API key, the feature or the event there is no resource. *)
Lemma get_not_found :
  truthy (OPENAI_API_KEY c) = false ∨
  features_has c "organizations:open-ai-suggestion"
               (project_organization project) (user request) = false ∨
  get_event_by_id c (id project) event_id = None →
  get c request project event_id σ = (Raise ResourceDoesNotExist, σ, []).
Proof.
  unfold get. intros [-> | [-> | ->]]; [done| |].
  - by destruct (truthy _).
  - by destruct (negb _ || negb _).
Qed.

Lemma get_restricted event :
  reaches_policy_check c request project event_id event →
  restricted c request →
  ∃ policy_failure,
    policy_of c request = VStr policy_failure ∧
    get c request project event_id σ
      = (Ok (restriction_response policy_failure), σ, []).
Proof.
  intros (Hkey & Hfeature & Hevent) Hr. unfold get.
  rewrite Hkey, Hfeature, Hevent. simpl.
  fold (policy_of c request). destruct Hr as [Hp | [Hp Hconsent]].
  - exists "subprocessor". by rewrite Hp.
  - exists "individual_consent". rewrite Hp. simpl.
    by rewrite bool_decide_eq_false_2.
Qed.

Lemma get_proceeds event :
  reaches_policy_check c request project event_id event →
  ¬ restricted c request →
  get c request project event_id σ
    = (outcome (suggest c event σ), cache_after (suggest c event σ),
       policy_warning (policy_of c request) ++ effects (suggest c event σ)).
Proof.
  intros (Hkey & Hfeature & Hevent) Hr. unfold get.
  rewrite Hkey, Hfeature, Hevent. simpl.
  fold (policy_of c request). unfold restricted in Hr.
  unfold policy_warning, outcome, cache_after, effects.
  destruct (eq_str (policy_of c request) "subprocessor") eqn:E1.
  { apply eq_str_spec in E1. tauto. }
  destruct (eq_str (policy_of c request) "individual_consent") eqn:E2.
  { apply eq_str_spec in E2. case_bool_decide as Hyes; simpl.
    - unfold bindM, ret. by destruct (suggest c event σ) as [[r σ'] t].
    - tauto. }
  destruct (eq_str (policy_of c request) "allowed") eqn:E3; simpl.
  - unfold bindM, ret. by destruct (suggest c event σ) as [[r σ'] t].
  - unfold bindM, ret, logger_warning.
    by destruct (suggest c event σ) as [[r σ'] t].
Qed.

(** A hit: the cached suggestion is returned and nothing else happens. *)
Lemma suggest_hit event :
  is_None (cached σ (cache_key event)) = false →
  suggest c event σ
    = (Ok (suggestion_response (cached σ (cache_key event))), σ,
       [CacheGet (cache_key event)]).
Proof.
  intros Hhit. unfold suggest, bindM, cache_get. by rewrite Hhit.
Qed.

(** A miss: the description is built, the API is asked, and its reply is
    stored and returned; an exception on the way ends the run there. *)
Lemma suggest_miss event :
  is_None (cached σ (cache_key event)) = true →
  suggest c event σ =
    match describe_event_for_ai (data event) with
    | Raise e => (Raise e, σ, [CacheGet (cache_key event)])
    | Ok event_info =>
        let request := completion_request (fun_prompt c) event_info in
        match ChatCompletion_create c request with
        | Raise e =>
            (Raise e, σ,
             [CacheGet (cache_key event); ChatCompletionCreate request])
        | Ok response =>
            match reply_content response with
            | Raise e =>
                (Raise e, σ,
                 [CacheGet (cache_key event); ChatCompletionCreate request])
            | Ok suggestion =>
                (Ok (suggestion_response suggestion),
                 <[cache_key event := (suggestion, 300)]> σ,
                 [CacheGet (cache_key event); ChatCompletionCreate request;
                  CacheSet (cache_key event) suggestion 300])
            end
        end
    end.
Proof.
  intros Hmiss.
  unfold suggest, bindM, cache_get, lift, chat_completion_create, cache_set, ret.
  rewrite Hmiss.
  destruct (describe_event_for_ai (data event)) as [event_info|e]; [|done].
  cbv zeta.
  destruct (ChatCompletion_create c _) as [response|e]; [|done].
  by destruct (reply_content response) as [suggestion|e].
Qed.

(** Every run of [suggest] is one of four: a hit; a miss that fails before
    the API is called; a miss whose call or reply fails; a miss that stores
    and returns the reply. *)
Lemma suggest_cases event :
  let key := cache_key event in
  let run := suggest c event σ in
  (is_None (cached σ key) = false ∧
   run = (Ok (suggestion_response (cached σ key)), σ, [CacheGet key])) ∨
  (is_None (cached σ key) = true ∧
   ∃ e, run = (Raise e, σ, [CacheGet key])) ∨
  (is_None (cached σ key) = true ∧
   ∃ e request, run = (Raise e, σ, [CacheGet key; ChatCompletionCreate request])) ∨
  (is_None (cached σ key) = true ∧
   ∃ request suggestion,
     run = (Ok (suggestion_response suggestion),
            <[key := (suggestion, 300)]> σ,
            [CacheGet key; ChatCompletionCreate request;
             CacheSet key suggestion 300])).
Proof.
  intros key run. subst run key.
  destruct (is_None (cached σ (cache_key event))) eqn:E.
  - right. rewrite (suggest_miss event E).
    destruct (describe_event_for_ai _) as [event_info|e]; [|left; eauto].
    cbv zeta. right.
    destruct (ChatCompletion_create c _) as [response|e]; [|left; eauto].
    destruct (reply_content response) as [suggestion|e]; [right|left]; eauto.
  - left. by rewrite (suggest_hit event E).
Qed.

Lemma restricted_dec : restricted c request ∨ ¬ restricted c request.
Proof.
  unfold restricted.
  destruct (eq_str (policy_of c request) "subprocessor") eqn:E1.
  { left. left. by apply eq_str_spec. }
  apply eq_str_false in E1.
  destruct (eq_str (policy_of c request) "individual_consent") eqn:E2.
  - apply eq_str_spec in E2.
    destruct (decide (GET request !! "consent" = Some "yes")) as [Hyes|Hno].
    + right. intros [?|[_ ?]]; done.
    + left. by right.
  - apply eq_str_false in E2. right. intros [?|[? _]]; done.
Qed.

(** Every run of the handler: no resource; the restriction; or the run of
    [suggest], after the warning about an unknown policy. *)
Lemma get_cases :
  let run := get c request project event_id σ in
  run = (Raise ResourceDoesNotExist, σ, []) ∨
  (∃ event policy_failure,
     reaches_policy_check c request project event_id event ∧
     restricted c request ∧
     run = (Ok (restriction_response policy_failure), σ, [])) ∨
  (∃ event,
     reaches_policy_check c request project event_id event ∧
     ¬ restricted c request ∧
     run = (outcome (suggest c event σ), cache_after (suggest c event σ),
            policy_warning (policy_of c request)
              ++ effects (suggest c event σ))).
Proof.
  intros run. subst run.
  destruct (truthy (OPENAI_API_KEY c)) eqn:Hkey;
    [|left; apply get_not_found; by left].
  destruct (features_has c "organizations:open-ai-suggestion"
              (project_organization project) (user request)) eqn:Hfeature;
    [|left; apply get_not_found; right; by left].
  destruct (get_event_by_id c (id project) event_id) as [event|] eqn:Hevent;
    [|left; apply get_not_found; right; by right].
  assert (reaches_policy_check c request project event_id event) as Hreach
    by done.
  right. destruct restricted_dec as [Hr|Hr].
  - left. destruct (get_restricted event Hreach Hr) as (pf & _ & Hrun).
    by exists event, pf.
  - right. exists event. split_and!; [done..|]. by apply get_proceeds.
Qed.

Lemma api_calls_policy_warning (policy : value) (t : list effect) :
  api_calls (policy_warning policy ++ t) = api_calls t.
Proof. unfold policy_warning. by destruct (_ || _). Qed.

Lemma cache_writes_policy_warning (policy : value) (t : list effect) :
  cache_writes (policy_warning policy ++ t) = cache_writes t.
Proof. unfold policy_warning. by destruct (_ || _). Qed.

End endpoint_facts.

(** C10, amended: the claim holds of the requests that get as far as the
    policy check, those with the API key configured, the feature enabled
    and the event in the store; any other request raises
    [ResourceDoesNotExist] whatever the policy.  The handler answers 403 if
    and only if the request gets that far and the policy is ['subprocessor'],
    or is ['individual_consent'] with a ['consent'] parameter that is not
    ['yes'].  That answer has the body [{"restriction": policy}] and the
    content type ["application/json"], and the cache, the API and the log
    are left alone.  Under any other policy, an unknown one included, the
    request proceeds: the rest of the run is the lookup of
    ["ai:" + primary hash] in the cache and what follows it, an unknown
    policy leaving only a warning in the log before it. *)
Theorem get_forbidden_iff_restricted (c : Collaborators) (request : Request)
    (project : Project) (event_id : string) (σ : gmap string (value * Z)) :
  let run := get c request project event_id σ in
  let policy :=
    get_openai_policy (openai_policy_check_send c) (organization request) in
  let checked event := reaches_policy_check c request project event_id event in
  let forbidden :=
    policy = VStr "subprocessor" ∨
    (policy = VStr "individual_consent" ∧
     GET request !! "consent" ≠ Some "yes") in
  ((∃ response, outcome run = Ok response ∧ status response = 403) ↔
     (∃ event, checked event) ∧ forbidden) ∧
  (∀ event, checked event → forbidden →
     ∃ policy_failure,
       policy = VStr policy_failure ∧
       run = (Ok {| content :=
                      json_dumps (VDict [("restriction", VStr policy_failure)]);
                    content_type := "application/json";
                    status := 403 |}, σ, [])) ∧
  (∀ event, checked event → ¬ forbidden →
     run = (outcome (suggest c event σ), cache_after (suggest c event σ),
            policy_warning policy ++ effects (suggest c event σ)) ∧
     head (effects (suggest c event σ))
       = Some (CacheGet ("ai:" +:+ primary_hash event))) ∧
  ((¬ ∃ event, checked event) → run = (Raise ResourceDoesNotExist, σ, [])).
Proof.
  intros run policy checked forbidden. subst run checked.
  change forbidden with (restricted c request).
  change policy with (policy_of c request). clear policy forbidden.
  assert (∀ event,
            reaches_policy_check c request project event_id event →
            ¬ restricted c request →
            ∀ response,
              outcome (get c request project event_id σ) = Ok response →
              status response ≠ 403) as Hproceeds.
  { intros event Hreach Hr response.
    rewrite (get_proceeds c request project event_id σ event Hreach Hr).
    unfold outcome. simpl.
    destruct (suggest_cases c σ event)
      as [[_ E] | [[_ (e & E)] | [[_ (e & r & E)] | [_ (r & s & E)]]]];
      rewrite E; simpl; try discriminate; by intros [= <-]. }
  split_and!.
  - split.
    + intros (response & Hout & Hstatus).
      destruct (get_cases c request project event_id σ)
        as [E | [(event & pf & Hreach & Hr & _) | (event & Hreach & Hr & _)]].
      * rewrite E in Hout. discriminate.
      * split; [by exists event | done].
      * by destruct (Hproceeds event Hreach Hr response Hout).
    + intros [[event Hreach] Hr].
      destruct (get_restricted c request project event_id σ event Hreach Hr)
        as (pf & _ & ->).
      by exists (restriction_response pf).
  - intros event Hreach Hr.
    destruct (get_restricted c request project event_id σ event Hreach Hr)
      as (pf & Hpolicy & ->).
    by exists pf.
  - intros event Hreach Hr. split; [by apply get_proceeds|].
    destruct (suggest_cases c σ event)
      as [[_ E] | [[_ (e & E)] | [[_ (e & r & E)] | [_ (r & s & E)]]]];
      by rewrite E.
  - intros Hnone.
    destruct (get_cases c request project event_id σ)
      as [E | [(event & pf & Hreach & _) | (event & Hreach & _)]];
      [done | destruct Hnone; by exists event ..].
Qed.

(** C3, amended: the handler is cache-aside, and a miss that fails stores
    nothing.  For a request that passes the policy check, with
    [key = "ai:" + primary hash]:
    - when the cache holds a suggestion under [key], the answer is
      [{"suggestion": suggestion}] for that suggestion, the cache is left as
      it was, and the API is not called;
    - when it holds none, or holds [None], the description of the event is
      built first.  If that raises, the exception ends the run with no call
      to the API and no write.  Otherwise the API is called exactly once,
      with the prompt and the serialised description; if the call raises, or
      the reply has no [choices[0].message.content], the exception ends the
      run and nothing is stored; otherwise that content is stored under
      [key] with the timeout 300 and is the suggestion of the answer;
    - no run calls the API more than once. *)
Theorem get_is_cache_aside (c : Collaborators) (request : Request)
    (project : Project) (event_id : string) (event : Event)
    (σ : gmap string (value * Z)) :
  reaches_policy_check c request project event_id event →
  ¬ restricted c request →
  let key := "ai:" +:+ primary_hash event in
  let run := get c request project event_id σ in
  let answer suggestion :=
    {| content := json_dumps (VDict [("suggestion", suggestion)]);
       content_type := "application/json";
       status := 200 |} in
  (∀ suggestion timeout,
     σ !! key = Some (suggestion, timeout) → suggestion ≠ VNone →
     outcome run = Ok (answer suggestion) ∧
     cache_after run = σ ∧
     api_calls (effects run) = [] ∧
     cache_writes (effects run) = []) ∧
  (σ !! key = None ∨ (∃ timeout, σ !! key = Some (VNone, timeout)) →
     (∀ e, describe_event_for_ai (data event) = Raise e →
        outcome run = Raise e ∧
        cache_after run = σ ∧
        api_calls (effects run) = [] ∧
        cache_writes (effects run) = []) ∧
     (∀ event_info, describe_event_for_ai (data event) = Ok event_info →
        let sent :=
          {| model := "gpt-3.5-turbo";
             temperature := 0.5%float;
             messages := [ ("system", Str (fun_prompt c));
                           ("user", json_dumps (VDict event_info)) ] |} in
        let reply_content :=
          let* reply := ChatCompletion_create c sent in
          let* choices := getitem reply "choices" in
          let* choice := getindex choices 0 in
          let* message := getitem choice "message" in
          getitem message "content" in
        api_calls (effects run) = [sent] ∧
        (∀ e, reply_content = Raise e →
           outcome run = Raise e ∧
           cache_after run = σ ∧
           cache_writes (effects run) = []) ∧
        (∀ suggestion, reply_content = Ok suggestion →
           outcome run = Ok (answer suggestion) ∧
           cache_after run = <[key := (suggestion, 300)]> σ ∧
           cache_writes (effects run) = [(key, suggestion, 300)]))) ∧
  (length (api_calls (effects run)) ≤ 1)%nat.
Proof.
  intros Hreach Hr key run answer.
  assert (outcome run = outcome (suggest c event σ) ∧
          cache_after run = cache_after (suggest c event σ) ∧
          api_calls (effects run) = api_calls (effects (suggest c event σ)) ∧
          cache_writes (effects run)
            = cache_writes (effects (suggest c event σ)))
    as (Eo & Ec & Ee & Ew).
  { subst run.
    rewrite (get_proceeds c request project event_id σ event Hreach Hr).
    unfold outcome, cache_after, effects. simpl.
    by rewrite api_calls_policy_warning, cache_writes_policy_warning. }
  rewrite Eo, Ec, Ee, Ew. clearbody run.
  change key with (cache_key event). clear key. subst answer.
  split_and!.
  - intros suggestion timeout Hheld Hsome.
    assert (cached σ (cache_key event) = suggestion) as Hcached
      by (unfold cached; by rewrite Hheld).
    rewrite (suggest_hit c σ event); rewrite Hcached; [done|].
    by destruct suggestion.
  - intros Hmiss.
    assert (is_None (cached σ (cache_key event)) = true) as Hnone.
    { unfold cached. by destruct Hmiss as [-> | [timeout ->]]. }
    rewrite (suggest_miss c σ event Hnone). split.
    + by intros e ->.
    + intros event_info -> sent reply_content. cbv zeta.
      change (completion_request (fun_prompt c) event_info) with sent.
      subst reply_content.
      destruct (ChatCompletion_create c sent) as [reply|e'];
        [|by split_and!; [| intros e [= ->] | intros s [=]]].
      change (Py.bind (Ok reply) ?k) with (EventAiSuggestedFixEndpoint.reply_content reply).
      destruct (EventAiSuggestedFixEndpoint.reply_content reply)
        as [suggestion|e'].
      * by split_and!; [| intros e [=] | intros s [= ->]].
      * by split_and!; [| intros e [= ->] | intros s [=]].
  - destruct (suggest_cases c σ event)
      as [[_ E] | [[_ (e & E)] | [[_ (e & r & E)] | [_ (r & s & E)]]]];
      rewrite E; unfold effects; simpl; lia.
Qed.

(** C5: every write to the cache uses the time-to-live 300.  Whatever the
    request, each [cache.set] of the run has the timeout 300, and a cache
    entry is as it was before the run or was stored with that timeout; and a
    request that misses the cache and is answered has made exactly one write,
    [cache.set(cache_key, suggestion, 300)], of the suggestion it returns. *)
Theorem cache_writes_use_fixed_ttl (c : Collaborators) (request : Request)
    (project : Project) (event_id : string) (σ : gmap string (value * Z)) :
  let run := get c request project event_id σ in
  (∀ key v timeout,
     (key, v, timeout) ∈ cache_writes (effects run) → timeout = 300) ∧
  (∀ key,
     cache_after run !! key = σ !! key ∨
     ∃ v, cache_after run !! key = Some (v, 300)) ∧
  (∀ event response,
     reaches_policy_check c request project event_id event →
     ¬ restricted c request →
     is_None (cached σ (cache_key event)) = true →
     outcome run = Ok response →
     ∃ suggestion,
       response = suggestion_response suggestion ∧
       cache_writes (effects run) = [(cache_key event, suggestion, 300)] ∧
       cache_after run = <[cache_key event := (suggestion, 300)]> σ).
Proof.
  intros run. split_and!.
  - intros key v timeout.
    destruct (get_cases c request project event_id σ)
      as [E | [(event & pf & _ & _ & E) | (event & _ & _ & E)]];
      fold run in E; rewrite E; unfold effects; simpl.
    + by intros ?%elem_of_nil.
    + by intros ?%elem_of_nil.
    + rewrite cache_writes_policy_warning.
      destruct (suggest_cases c σ event)
        as [[_ E'] | [[_ (e & E')] | [[_ (e & r & E')] | [_ (r & s & E')]]]];
        rewrite E'; simpl; try by intros ?%elem_of_nil.
      by intros [= _ _ ->]%list_elem_of_singleton.
  - intros key.
    destruct (get_cases c request project event_id σ)
      as [E | [(event & pf & _ & _ & E) | (event & _ & _ & E)]];
      fold run in E; rewrite E; unfold cache_after; simpl; [by left..|].
    destruct (suggest_cases c σ event)
      as [[_ E'] | [[_ (e & E')] | [[_ (e & r & E')] | [_ (r & s & E')]]]];
      rewrite E'; simpl; [by left..|].
    destruct (decide (cache_key event = key)) as [<-|Hne].
    + right. exists s. by rewrite lookup_insert_eq.
    + left. by rewrite lookup_insert_ne.
  - intros event response Hreach Hr Hmiss. subst run.
    rewrite (get_proceeds c request project event_id σ event Hreach Hr).
    unfold outcome, cache_after, effects. simpl.
    rewrite cache_writes_policy_warning.
    destruct (suggest_cases c σ event)
      as [[Hhit _] | [[_ (e & E')] | [[_ (e & r & E')] | [_ (r & s & E')]]]];
      [congruence | rewrite E'; simpl; try discriminate ..].
    intros [= <-]. by exists s.
Qed.

(** *** A concrete deployment

    One event in the store, an API that answers every request with the same
    reply, and receivers of the policy signal that respond [policy]. *)

Definition sample_event : Event :=
  {| primary_hash := "c4a1"; data := crash_event |}.

Definition sample_reply : value :=
  VDict [ ("choices",
           VList [ VDict [ ("index", VInt 0);
                           ("message",
                            VDict [ ("role", VStr "assistant");
                                    ("content", VStr "Check the input") ]) ] ])
        ].

Definition sample_collaborators (policy : list value) : Collaborators :=
  {| OPENAI_API_KEY := VStr "sk-key";
     features_has := λ _ _ _, true;
     get_event_by_id := λ _ event_id,
       if String.eqb event_id "e1" then Some sample_event else None;
     openai_policy_check_send := λ _, policy;
     random_index := 7;
     ChatCompletion_create := λ _, Ok sample_reply |}.

Definition sample_request (query : gmap string string) : Request :=
  {| GET := query; user := 1; organization := 1 |}.

Definition sample_project : Project := {| id := 1; project_organization := 1 |}.

Lemma sample_reaches (policy : list value) (query : gmap string string) :
  reaches_policy_check (sample_collaborators policy) (sample_request query)
                       sample_project "e1" sample_event.
Proof. by split_and!. Qed.

Lemma sample_allowed :
  ¬ restricted (sample_collaborators [VNone; VStr "allowed"])
               (sample_request ∅).
Proof. unfold restricted. by intros [[=] | [[=] _]]. Qed.

(** The receivers ask for individual consent and the request brings none. *)
Lemma get_forbidden_iff_restricted_witness :
  restricted (sample_collaborators [VStr "individual_consent"; VNone])
             (sample_request ∅) ∧
  get (sample_collaborators [VStr "individual_consent"; VNone])
      (sample_request ∅) sample_project "e1" ∅
    = (Ok {| content :=
               json_dumps (VDict [("restriction", VStr "individual_consent")]);
             content_type := "application/json";
             status := 403 |}, ∅, []).
Proof.
  assert (restricted (sample_collaborators [VStr "individual_consent"; VNone])
                     (sample_request ∅)) as Hr.
  { right. split; [reflexivity|]. simpl. by rewrite lookup_empty. }
  split; [exact Hr|].
  pose proof (get_forbidden_iff_restricted
                (sample_collaborators [VStr "individual_consent"; VNone])
                (sample_request ∅) sample_project "e1" ∅) as Hget.
  cbv zeta in Hget. destruct Hget as (_ & Hforbidden & _).
  destruct (Hforbidden sample_event (sample_reaches _ _) Hr)
    as (policy_failure & Hpolicy & Hrun).
  injection Hpolicy as <-. exact Hrun.
Defined.

(** No API key is configured, and the receivers name a subprocessor. *)
Definition unconfigured_collaborators : Collaborators :=
  {| OPENAI_API_KEY := VNone;
     features_has := λ _ _ _, true;
     get_event_by_id := λ _ _, Some sample_event;
     openai_policy_check_send := λ _, [VStr "subprocessor"];
     random_index := 0;
     ChatCompletion_create := λ _, Ok sample_reply |}.

(** C10, as stated, fails: the policy is ['subprocessor'] and the handler
    does not answer 403.  Without an API key it raises
    [ResourceDoesNotExist] before it looks at the policy. *)
Lemma get_restricted_without_api_key :
  get_openai_policy (openai_policy_check_send unconfigured_collaborators)
                    (organization (sample_request ∅))
    = VStr "subprocessor" ∧
  get unconfigured_collaborators (sample_request ∅) sample_project "e1" ∅
    = (Raise ResourceDoesNotExist, ∅, []).
Proof. by split. Qed.

(** A miss on the empty cache, then a hit on the cache the miss leaves. *)
Lemma get_is_cache_aside_witness :
  let c := sample_collaborators [VNone; VStr "allowed"] in
  let run := get c (sample_request ∅) sample_project "e1" ∅ in
  let again := get c (sample_request ∅) sample_project "e1" (cache_after run) in
  let answer :=
    {| content := json_dumps (VDict [("suggestion", VStr "Check the input")]);
       content_type := "application/json";
       status := 200 |} in
  (outcome run = Ok answer ∧
   cache_after run = {[ "ai:c4a1" := (VStr "Check the input", 300) ]} ∧
   length (api_calls (effects run)) = 1%nat) ∧
  (outcome again = Ok answer ∧
   cache_after again = cache_after run ∧
   api_calls (effects again) = []).
Proof.
  intros c run again answer.
  pose proof (get_is_cache_aside c (sample_request ∅) sample_project "e1"
                sample_event ∅ (sample_reaches _ _) sample_allowed) as Hempty.
  cbv zeta in Hempty. destruct Hempty as (_ & Hmiss & _).
  destruct (Hmiss (or_introl (lookup_empty _))) as (_ & Hdescribed).
  assert (describe_event_for_ai (data sample_event) =
            Ok (match describe_event_for_ai (data sample_event) with
                | Ok event_info => event_info
                | Raise _ => []
                end)) as Hinfo by (by vm_compute).
  destruct (Hdescribed _ Hinfo) as (Hcalls & _ & Hstored).
  destruct (Hstored (VStr "Check the input") eq_refl)
    as (Hout & Hcache & _).
  fold run in Hout, Hcache, Hcalls.
  assert (cache_after run = {[ "ai:c4a1" := (VStr "Check the input", 300) ]})
    as Hcache' by (by rewrite Hcache).
  split.
  - split_and!; [exact Hout | exact Hcache' | by rewrite Hcalls].
  - pose proof (get_is_cache_aside c (sample_request ∅) sample_project "e1"
                  sample_event (cache_after run) (sample_reaches _ _)
                  sample_allowed) as Hfilled.
    cbv zeta in Hfilled. destruct Hfilled as (Hhit & _).
    fold again in Hhit.
    destruct (Hhit (VStr "Check the input") 300) as (Hout2 & Hcache2 & Hcalls2 & _);
      [by rewrite Hcache' | done |].
    by split_and!.
Defined.

Lemma cache_writes_use_fixed_ttl_witness :
  let run := get (sample_collaborators [VNone; VStr "allowed"])
                 (sample_request ∅) sample_project "e1" ∅ in
  cache_writes (effects run) = [("ai:c4a1", VStr "Check the input", 300)] ∧
  cache_after run = {[ "ai:c4a1" := (VStr "Check the input", 300) ]}.
Proof.
  intros run.
  destruct (cache_writes_use_fixed_ttl
              (sample_collaborators [VNone; VStr "allowed"])
              (sample_request ∅) sample_project "e1" ∅) as (_ & _ & Hmiss).
  fold run in Hmiss.
  assert (outcome run = Ok (suggestion_response (VStr "Check the input")))
    as Hout by (by vm_compute).
  destruct (Hmiss sample_event _ (sample_reaches _ _) sample_allowed
              eq_refl Hout) as (suggestion & [= <-] & Hwrites & Hcache).
  by split.
Defined.

(** ** The keys describe_event_for_ai looks up without a guard *)

(** [event["exception"]["values"]], when it is there and a list. *)
Definition exception_values (event : event_data) : list value :=
  match dict_get (fields event) "exception" (VDict []) with
  | VDict exception =>
      match dict_get exception "values" (VList []) with
      | VList values => values
      | _ => []
      end
  | _ => []
  end.

(** The exception values the loop reads: the first [MAX_STACKTRACE_FRAMES]. *)
Definition visited_exceptions (event : event_data) : list value :=
  take (Z.to_nat MAX_STACKTRACE_FRAMES) (exception_values event).

(** [exc["stacktrace"]["frames"]], when it is there and a list. *)
Definition stacktrace_frames (exc : value) : list value :=
  match exc with
  | VDict exc =>
      match dict_get exc "stacktrace" (VDict []) with
      | VDict stacktrace =>
          match dict_get stacktrace "frames" VNone with
          | VList frames => frames
          | _ => []
          end
      | _ => []
      end
  | _ => []
  end.











Section unguarded_keys.
Implicit Types (frame exc : value) (l : list value).


Lemma slice_take {A} (l : list A) (n : Z) :
  0 ≤ n → slice l 0 n = take (Z.to_nat n) l.
Proof.
  intros Hn. unfold slice, slice_bound.
  change (0 <? 0) with false. cbv iota.
  rewrite (proj2 (Z.ltb_ge n 0) Hn), (Z.min_l 0) by lia.
  rewrite Z.sub_0_r. change (drop (Z.to_nat 0) l) with l.
  destruct (decide (n ≤ Z.of_nat (length l))) as [Hle|Hgt].
  - by rewrite Z.min_l by lia.
  - rewrite Z.min_r by lia. rewrite Nat2Z.id.
    by rewrite !take_ge by lia.
Qed.

(** *** What a successful run has read *)





(** *** What a run does on a payload of the expected shape *)






End unguarded_keys.

(** The exception values beyond the first [MAX_STACKTRACE_FRAMES] are never
    read: 30 well-formed exception values followed by one without ['type']. *)
Definition long_chain_event : event_data :=
  {| tags := Some [("level", "error")];
     fields :=
       [ ("exception",
          VDict [("values",
                  VList (replicate 30 (VDict [("type", VStr "RuntimeError")])
                         ++ [VDict [("value", VStr "no type")]]))]) ] |}.



(** A frame without ['in_app'] in the only exception of an event. *)
Definition frame_without_in_app : event_data :=
  {| tags := Some [("level", "error")];
     fields :=
       [ ("exception",
          VDict [("values", VList [
            VDict [ ("type", VStr "ValueError");
                    ("stacktrace", VDict [("frames", VList [
                       VDict [ ("function", VStr "send");
                               ("filename", VStr "lib.py") ] ])]) ] ])]) ] |}.


(** ** A miss that does not reach the API *)

(** The store holds one event, [frame_without_in_app], which has no
    description; the policy is ['allowed']. *)
Definition undescribed_event : Event :=
  {| primary_hash := "77aa"; data := frame_without_in_app |}.

Definition undescribed_collaborators : Collaborators :=
  {| OPENAI_API_KEY := VStr "sk-key";
     features_has := λ _ _ _, true;
     get_event_by_id := λ _ _, Some undescribed_event;
     openai_policy_check_send := λ _, [];
     random_index := 0;
     ChatCompletion_create := λ _, Ok sample_reply |}.

(** C3, as stated, fails: the request passes the checks and misses the
    cache, and the API is not called once but never.  The description of the
    event raises [KeyError] before the call, and the run ends there with
    nothing stored. *)
Lemma get_miss_without_api_call :
  let c := undescribed_collaborators in
  let run := get c (sample_request ∅) sample_project "e1" ∅ in
  reaches_policy_check c (sample_request ∅) sample_project "e1"
                       undescribed_event ∧
  policy_of c (sample_request ∅) = VStr "allowed" ∧
  (∅ : gmap string (value * Z)) !! ("ai:" +:+ primary_hash undescribed_event)
    = None ∧
  run = (Raise (KeyError (VStr "in_app")), ∅, [CacheGet "ai:77aa"]) ∧
  api_calls (effects run) = [] ∧
  cache_writes (effects run) = [].
Proof. intros c run. by split_and!; vm_compute. Qed.

(** * Further properties *)

(** ** The methods of ResolvedColumn on the span columns *)

Section column_methods.
Context {T : Type} (type_of : internal_type_const → T).
Implicit Types (c : ResolvedColumn) (k : string) (v : value).
Implicit Types (TYPE_MAP : gmap string T).

Lemma span_column_cases (P : ResolvedColumn → Prop) :
  Forall P span_columns → ∀ k c, SPAN_COLUMN_DEFINITIONS !! k = Some c →
  public_alias c = k ∧ P c.
Proof.
  intros HP k c [Hk Hc]%by_public_alias_Some. split; [done|].
  by apply (proj1 (Forall_forall _ _) HP).
Qed.

Lemma project_value_map_fold (l : list (Z * string)) (d : gmap string string)
    (pid : Z) :
  NoDup (l.*1) →
  foldl (λ d item, <[pretty item.1 := item.2]> d) d l !! pretty pid =
    match (list_to_map l : gmap Z string) !! pid with
    | Some name => Some name
    | None => d !! pretty pid
    end.
Proof.
  revert d. induction l as [|[j y] l IH]; intros d Hnd; [done|].
  rewrite fmap_cons in Hnd. apply NoDup_cons in Hnd as [Hj Hnd].
  cbn [foldl]. rewrite IH by done. simpl.
  destruct (decide (pid = j)) as [->|Hne].
  - rewrite lookup_insert_eq, (not_elem_of_list_to_map_1 l j Hj).
    by rewrite lookup_insert_eq.
  - rewrite (lookup_insert_ne _ j pid) by done.
    destruct (list_to_map l !! pid); [done|].
    rewrite lookup_insert_ne; [done|]. by intros ?%(inj pretty).
Qed.

Lemma project_value_map_fold_Some (l : list (Z * string))
    (d : gmap string string) (key name : string) :
  foldl (λ d item, <[pretty item.1 := item.2]> d) d l !! key = Some name →
  d !! key = Some name ∨ ∃ pid, key = pretty pid ∧ (pid, name) ∈ l.
Proof.
  revert d. induction l as [|[j y] l IH]; intros d; [by left|].
  cbn [foldl]. intros [Hd | (pid & -> & Hin)]%IH.
  - simpl in Hd. destruct (decide (pretty j = key)) as [<-|Hne].
    + rewrite lookup_insert_eq in Hd. injection Hd as ->.
      right. exists j. split; [done | apply list_elem_of_here].
    + rewrite lookup_insert_ne in Hd by done. by left.
  - right. exists pid. split; [done | by apply list_elem_of_further].
Qed.

Lemma project_value_map_lookup (m : gmap Z string) (pid : Z) :
  project_value_map m !! pretty pid = m !! pid.
Proof.
  unfold project_value_map.
  rewrite project_value_map_fold by apply NoDup_fst_map_to_list.
  rewrite list_to_map_to_list, lookup_empty. by destruct (m !! pid).
Qed.

Lemma project_value_map_Some (m : gmap Z string) (key name : string) :
  project_value_map m !! key = Some name →
  ∃ pid, key = pretty pid ∧ m !! pid = Some name.
Proof.
  intros [Hd | (pid & -> & Hin)]%project_value_map_fold_Some.
  - by rewrite lookup_empty in Hd.
  - exists pid. split; [done|]. by apply elem_of_map_to_list.
Qed.

End column_methods.

(** Only the span id and the trace id are validated.  For a column of
    [SPAN_COLUMN_DEFINITIONS], [validate] raises [InvalidSearchQuery] exactly
    when the column is ["id"] and [is_span_id] rejects the value, or it is
    ["trace"] and [is_event_id] rejects it; the error names the value and the
    public alias.  Every other column accepts every value. *)
Theorem validate_span_columns (call : validator_fn → value → bool)
    (k : string) (c : ResolvedColumn) (v : value) :
  SPAN_COLUMN_DEFINITIONS !! k = Some c →
  validate call c v =
    if bool_decide (k = "id") && negb (call is_span_id v)
       || bool_decide (k = "trace") && negb (call is_event_id v)
    then Raises (invalid_value v k)
    else Returns tt.
Proof.
  intros Hc.
  apply (span_column_cases
           (λ c, validate call c v =
                 if bool_decide (public_alias c = "id")
                    && negb (call is_span_id v)
                    || bool_decide (public_alias c = "trace")
                       && negb (call is_event_id v)
                 then Raises (invalid_value v (public_alias c))
                 else Returns tt)) in Hc as [<- Hc]; [done|].
  unfold span_columns, validate.
  repeat (constructor;
          [cbv beta; simpl;
           destruct (call is_span_id v), (call is_event_id v); by vm_compute|]).
  constructor.
Qed.

Lemma validate_span_columns_witness :
  SPAN_COLUMN_DEFINITIONS !! "trace"
    = Some (with_validator is_event_id (column "trace" "trace_id" "string")) ∧
  validate (λ _ v, eq_str v "0123456789abcdef0123456789abcdef")
           (with_validator is_event_id (column "trace" "trace_id" "string"))
           (VStr "not a trace id")
    = Raises (invalid_value (VStr "not a trace id") "trace").
Proof.
  assert (SPAN_COLUMN_DEFINITIONS !! "trace"
            = Some (with_validator is_event_id
                      (column "trace" "trace_id" "string"))) as Hc
    by (by vm_compute).
  split; [exact Hc|].
  by rewrite (validate_span_columns _ "trace" _ _ Hc).
Defined.

(** The search types of the table are ["string"], ["number"] and
    ["duration"]: once [TYPE_MAP] has these three keys, [proto_definition]
    returns an attribute key for every column of [SPAN_COLUMN_DEFINITIONS],
    named by the column's [internal_name]; its type is the integer type for
    ["project"] and ["project.slug"], whatever [TYPE_MAP] says, and
    [TYPE_MAP[search_type]] for every other column. *)
Theorem proto_definition_span_columns {T : Type}
    (type_of : internal_type_const → T) (TYPE_MAP : gmap string T)
    (k : string) (c : ResolvedColumn) :
  is_Some (TYPE_MAP !! "string") →
  is_Some (TYPE_MAP !! "number") →
  is_Some (TYPE_MAP !! "duration") →
  SPAN_COLUMN_DEFINITIONS !! k = Some c →
  ∃ t, proto_definition type_of TYPE_MAP c
         = Returns {| name := internal_name c; type := t |} ∧
       if bool_decide (k = "project" ∨ k = "project.slug")
       then t = type_of INT
       else TYPE_MAP !! search_type c = Some t.
Proof.
  intros [ts Hs] [tn Hn] [td Hd] Hc.
  apply (span_column_cases
           (λ c, ∃ t, proto_definition type_of TYPE_MAP c
                        = Returns {| name := internal_name c; type := t |} ∧
                      if bool_decide (public_alias c = "project"
                                      ∨ public_alias c = "project.slug")
                      then t = type_of INT
                      else TYPE_MAP !! search_type c = Some t))
    in Hc as [<- Hc]; [done|].
  unfold span_columns, proto_definition.
  repeat (constructor;
          [simpl; rewrite ?Hs, ?Hn, ?Hd; eexists; split; [done|];
           by rewrite ?bool_decide_eq_true_2, ?bool_decide_eq_false_2
             by (auto; intros [[=]|[=]]) |]).
  constructor.
Qed.

Lemma proto_definition_span_columns_witness :
  proto_definition (λ _, "TYPE_INT")
    {[ "string" := "TYPE_STRING"; "number" := "TYPE_FLOAT";
       "duration" := "TYPE_FLOAT" ]}
    (column "span.self_time" "exclusive_time_ms" "duration")
  = Returns {| name := "exclusive_time_ms"; type := "TYPE_FLOAT" |}.
Proof.
  destruct (proto_definition_span_columns (λ _, "TYPE_INT")
              {[ "string" := "TYPE_STRING"; "number" := "TYPE_FLOAT";
                 "duration" := "TYPE_FLOAT" ]}
              "span.self_time"
              (column "span.self_time" "exclusive_time_ms" "duration"))
    as (t & -> & Ht);
    [by eexists; vm_compute | by eexists; vm_compute | by eexists; vm_compute
    | by vm_compute | ].
  simpl in Ht. f_equal. f_equal.
  assert (Some t = Some "TYPE_FLOAT") as [= ->]; [|done].
  rewrite <- Ht. by vm_compute.
Defined.

(** Every virtual context belongs to a column of the registry that is stored
    in ["project_id"], the column the context translates from, and it
    translates to the public name it is registered under.  Its value map
    sends the decimal notation of each project id to that project's name, and
    has no other key: two projects never share an entry. *)
Theorem virtual_contexts_resolve (k : string)
    (constructor : gmap Z string → VirtualColumnContext)
    (project_id_map : gmap Z string) :
  VIRTUAL_CONTEXTS !! k = Some constructor →
  let context := constructor project_id_map in
  (∃ c, SPAN_COLUMN_DEFINITIONS !! k = Some c ∧
        internal_name c = from_column_name context ∧
        internal_type c = Some INT) ∧
  to_column_name context = k ∧
  (∀ project_id,
     value_map context !! pretty project_id = project_id_map !! project_id) ∧
  (∀ key project_name,
     value_map context !! key = Some project_name →
     ∃ project_id, key = pretty project_id ∧
                   project_id_map !! project_id = Some project_name).
Proof.
  unfold VIRTUAL_CONTEXTS. intros Hk. cbv zeta.
  destruct (decide (k = "project.slug")) as [->|Hslug].
  { rewrite lookup_insert_eq in Hk. injection Hk as <-. split_and!.
    - eexists. split; [by vm_compute | done].
    - done.
    - apply project_value_map_lookup.
    - apply project_value_map_Some. }
  rewrite lookup_insert_ne in Hk by done.
  destruct (decide (k = "project")) as [->|Hproject].
  { rewrite lookup_insert_eq in Hk. injection Hk as <-. split_and!.
    - eexists. split; [by vm_compute | done].
    - done.
    - apply project_value_map_lookup.
    - apply project_value_map_Some. }
  rewrite lookup_insert_ne in Hk by done. by rewrite lookup_empty in Hk.
Qed.

Lemma virtual_contexts_resolve_witness :
  value_map (project_context_constructor "project.slug"
               {[ 1 := "backend"; 42 := "frontend" ]}) !! "42"
    = Some "frontend".
Proof.
  assert (VIRTUAL_CONTEXTS !! "project.slug"
            = Some (project_context_constructor "project.slug")) as Hk
    by (by vm_compute).
  destruct (virtual_contexts_resolve "project.slug" _
              {[ 1 := "backend"; 42 := "frontend" ]} Hk)
    as (_ & _ & Hmap & _).
  etrans; [exact (Hmap 42) | by vm_compute].
Defined.

(** ** The policy signal *)

Lemma get_openai_policy_fold (results : list value) (result : value) :
  foldl (λ result new_result,
           if is_None new_result then result else new_result) result results
  = default result (last (List.filter (λ r, negb (is_None r)) results)).
Proof.
  revert result. induction results as [|r results IH]; intros result; [done|].
  cbn [foldl List.filter]. rewrite IH. destruct (is_None r); simpl; [done|].
  destruct (List.filter _ results) as [|r' l] eqn:E; [done|].
  change (last (r :: r' :: l)) with (last (r' :: l)).
  destruct (last (r' :: l)) eqn:El; [done|]. by apply last_None in El.
Qed.

(** Last one wins: the policy is the last response of the receivers that is
    not [None], and ["allowed"] when there is none.  A receiver heard later
    overrides an earlier one, also to lift a restriction. *)
Theorem get_openai_policy_last_wins (send : Z → list value)
    (organization : Z) :
  get_openai_policy send organization
  = default (VStr "allowed")
      (last (List.filter (λ r, negb (is_None r)) (send organization))).
Proof. unfold get_openai_policy. apply get_openai_policy_fold. Qed.

(** ** The handler *)

(** Without a configured API key, with the feature off, or for an event the
    store does not have, the handler raises [ResourceDoesNotExist] and makes
    no call at all: the cache is neither read nor written, the API is not
    asked and nothing is logged. *)
Theorem get_without_resource (c : Collaborators) (request : Request)
    (project : Project) (event_id : string) (σ : gmap string (value * Z)) :
  truthy (OPENAI_API_KEY c) = false ∨
  features_has c "organizations:open-ai-suggestion"
               (project_organization project) (user request) = false ∨
  get_event_by_id c (id project) event_id = None →
  get c request project event_id σ = (Raise ResourceDoesNotExist, σ, []).
Proof. apply get_not_found. Qed.

Lemma get_without_resource_witness :
  get (sample_collaborators [VStr "allowed"]) (sample_request ∅)
      sample_project "e2" {[ "ai:c4a1" := (VStr "Check the input", 300) ]}
  = (Raise ResourceDoesNotExist,
     {[ "ai:c4a1" := (VStr "Check the input", 300) ]}, []).
Proof.
  apply (get_without_resource (sample_collaborators [VStr "allowed"])).
  right. right. reflexivity.
Defined.

(** What reaches the API is the sanitized description and nothing else: every
    request a run sends is the one built from the prompt and the description
    of the stored event, with the system message first and the serialised
    description as the only user message, and no tag of that description
    has a blocked key. *)
Theorem api_receives_description_only (c : Collaborators) (request : Request)
    (project : Project) (event_id : string) (σ : gmap string (value * Z))
    (sent : ChatCompletionRequest) :
  sent ∈ api_calls (effects (get c request project event_id σ)) →
  ∃ event event_info described_tags,
    get_event_by_id c (id project) event_id = Some event ∧
    describe_event_for_ai (data event) = Ok event_info ∧
    model sent = "gpt-3.5-turbo" ∧
    messages sent = [ ("system", Str (fun_prompt c));
                      ("user", json_dumps (VDict event_info)) ] ∧
    dict_lookup event_info "tags" = Some (VDict described_tags) ∧
    ∀ k, k ∈ dict_keys described_tags → k ∉ BLOCKED_TAGS.
Proof.
  destruct (get_cases c request project event_id σ)
    as [E | [(event & pf & _ & _ & E) | (event & Hreach & _ & E)]];
    rewrite E; unfold effects; simpl; [by intros ?%elem_of_nil..|].
  rewrite api_calls_policy_warning.
  destruct (is_None (cached σ (cache_key event))) eqn:Hc.
  - rewrite (suggest_miss c σ event Hc).
    destruct (describe_event_for_ai (data event)) as [event_info|e] eqn:Hinfo;
      [|by intros ?%elem_of_nil].
    cbv zeta. intros Hsent.
    assert (sent = completion_request (fun_prompt c) event_info) as ->.
    { destruct (ChatCompletion_create c _) as [reply|e]; simpl in Hsent.
      - destruct (reply_content reply); simpl in Hsent;
          by apply list_elem_of_singleton in Hsent.
      - by apply list_elem_of_singleton in Hsent. }
    pose proof Hinfo as Hrun.
    apply describe_event_for_ai_Ok in Hinfo
      as (t & values & head & rvalues & excs & _ & _ & _ & _ & _ & ->).
    destruct (description_lookup (foldl add_tag [] (sorted t)) excs
                (dict_get (fields (data event)) "message" VNone)) as [Hl _].
    exists event. eexists. eexists.
    split_and!; [apply Hreach | exact Hrun | done | done | exact Hl |].
    intros k Hk. apply add_tag_keys in Hk as [Hk|[Hk _]]; [|done].
    by apply elem_of_nil in Hk.
  - rewrite (suggest_hit c σ event Hc). by intros ?%elem_of_nil.
Qed.

Lemma api_receives_description_only_witness :
  ∃ sent event_info,
    api_calls (effects (get (sample_collaborators []) (sample_request ∅)
                            sample_project "e1" ∅)) = [sent] ∧
    describe_event_for_ai crash_event = Ok event_info ∧
    messages sent = [ ("system", Str (fun_prompt (sample_collaborators [])));
                      ("user", json_dumps (VDict event_info)) ].
Proof.
  assert (∃ sent, api_calls (effects (get (sample_collaborators [])
                    (sample_request ∅) sample_project "e1" ∅)) = [sent])
    as [sent Hsent] by (eexists; by vm_compute).
  destruct (api_receives_description_only (sample_collaborators [])
              (sample_request ∅) sample_project "e1" ∅ sent)
    as (event & event_info & t & [= <-] & Hinfo & _ & Hmsgs & _).
  { rewrite Hsent. apply list_elem_of_here. }
  by exists sent, event_info.
Defined.

Lemma is_None_true (v : value) : is_None v = true ↔ v = VNone.
Proof. destruct v; simpl; split; (done || discriminate). Qed.

Lemma cache_key_hash (event1 event2 : Event) :
  primary_hash event1 = primary_hash event2 →
  cache_key event1 = cache_key event2.
Proof. unfold cache_key. by intros ->. Qed.

Lemma cached_insert (σ : gmap string (value * Z)) (key : string)
    (v : value) (timeout : Z) :
  cached (<[key := (v, timeout)]> σ) key = v.
Proof. unfold cached. by rewrite lookup_insert_eq. Qed.

Lemma get_proceeds_parts (c : Collaborators) (request : Request)
    (project : Project) (event_id : string) (σ : gmap string (value * Z))
    (event : Event) :
  reaches_policy_check c request project event_id event →
  ¬ restricted c request →
  outcome (get c request project event_id σ) = outcome (suggest c event σ) ∧
  cache_after (get c request project event_id σ)
    = cache_after (suggest c event σ) ∧
  api_calls (effects (get c request project event_id σ))
    = api_calls (effects (suggest c event σ)) ∧
  cache_writes (effects (get c request project event_id σ))
    = cache_writes (effects (suggest c event σ)).
Proof.
  intros Hreach Hr.
  rewrite (get_proceeds c request project event_id σ event Hreach Hr).
  unfold outcome, cache_after, effects. simpl.
  by rewrite api_calls_policy_warning, cache_writes_policy_warning.
Qed.

(** The suggestion is shared by the events of a group for as long as the
    cache keeps it.  Once a request has been answered with a suggestion that
    is not [None], the cache holds that suggestion under
    ["ai:" + primary hash].  In any later state of the cache that still has
    this entry, a request for any event with the same primary hash, from any
    user and with the API in any state, gets the same answer from the cache,
    without a call to the API and without a write.  In a state that has lost
    the entry, after the 300 seconds it was stored for, no such request is
    answered without a new call to the API. *)
Theorem suggestion_is_shared (c1 c2 : Collaborators)
    (request1 request2 : Request) (project1 project2 : Project)
    (event_id1 event_id2 : string) (event1 event2 : Event)
    (σ : gmap string (value * Z)) (response : HttpResponse) :
  reaches_policy_check c1 request1 project1 event_id1 event1 →
  ¬ restricted c1 request1 →
  reaches_policy_check c2 request2 project2 event_id2 event2 →
  ¬ restricted c2 request2 →
  primary_hash event1 = primary_hash event2 →
  outcome (get c1 request1 project1 event_id1 σ) = Ok response →
  response ≠ suggestion_response VNone →
  let key := "ai:" +:+ primary_hash event1 in
  let σ' := cache_after (get c1 request1 project1 event_id1 σ) in
  (∃ suggestion timeout,
     σ' !! key = Some (suggestion, timeout) ∧
     response =
       {| content := json_dumps (VDict [("suggestion", suggestion)]);
          content_type := "application/json";
          status := 200 |}) ∧
  (∀ σ2, σ2 !! key = σ' !! key →
     outcome (get c2 request2 project2 event_id2 σ2) = Ok response ∧
     cache_after (get c2 request2 project2 event_id2 σ2) = σ2 ∧
     api_calls (effects (get c2 request2 project2 event_id2 σ2)) = [] ∧
     cache_writes (effects (get c2 request2 project2 event_id2 σ2)) = []) ∧
  (∀ σ2 response2, σ2 !! key = None →
     outcome (get c2 request2 project2 event_id2 σ2) = Ok response2 →
     length (api_calls (effects (get c2 request2 project2 event_id2 σ2)))
       = 1%nat).
Proof.
  intros Hreach1 Hr1 Hreach2 Hr2 Hhash Hout Hnone key σ'.
  assert (key = cache_key event1) as Hkey1 by reflexivity.
  assert (key = cache_key event2) as Hkey2
    by (rewrite Hkey1; by apply cache_key_hash).
  clearbody key.
  assert (∃ suggestion timeout,
            σ' !! key = Some (suggestion, timeout) ∧
            response = suggestion_response suggestion ∧
            is_None suggestion = false)
    as (suggestion & timeout & Hheld & -> & Hsome).
  { subst σ'. revert Hout.
    destruct (get_proceeds_parts c1 request1 project1 event_id1 σ event1
                Hreach1 Hr1) as (-> & -> & _ & _).
    destruct (suggest_cases c1 σ event1)
      as [[Hc E] | [[_ (e & E)] | [[_ (e & r & E)] | [_ (r & s & E)]]]];
      rewrite E; unfold outcome, cache_after; simpl; try discriminate.
    - intros [= <-]. rewrite Hkey1. revert Hc. unfold cached.
      destruct (σ !! cache_key event1) as [[v t]|]; [|done].
      intros Hc. by exists v, t.
    - intros [= <-]. exists s, 300. rewrite Hkey1, lookup_insert_eq.
      split_and!; [done..|].
      destruct (is_None s) eqn:Hs; [|done].
      apply is_None_true in Hs as ->. done. }
  clearbody σ'. split_and!.
  - by exists suggestion, timeout.
  - intros σ2 Hsame. rewrite Hheld, Hkey2 in Hsame.
    destruct (get_proceeds_parts c2 request2 project2 event_id2 σ2 event2
                Hreach2 Hr2) as (-> & -> & -> & ->).
    assert (cached σ2 (cache_key event2) = suggestion) as Hcached
      by (unfold cached; by rewrite Hsame).
    rewrite (suggest_hit c2 σ2 event2); by rewrite Hcached.
  - intros σ2 response2 Hgone. rewrite Hkey2 in Hgone.
    destruct (get_proceeds_parts c2 request2 project2 event_id2 σ2 event2
                Hreach2 Hr2) as (-> & _ & -> & _).
    assert (is_None (cached σ2 (cache_key event2)) = true) as Hmiss
      by (unfold cached; by rewrite Hgone).
    destruct (suggest_cases c2 σ2 event2)
      as [[Hc _] | [[_ (e & E)] | [[_ (e & r & E)] | [_ (r & s & E)]]]];
      [congruence | rewrite E; unfold outcome; simpl; try discriminate ..].
    done.
Qed.

(** A second event of the group of [sample_event]. *)
Definition sibling_event : Event :=
  {| primary_hash := "c4a1"; data := tagged_event "id:7" "2.0" |}.

Definition sibling_collaborators : Collaborators :=
  {| OPENAI_API_KEY := VStr "sk-key";
     features_has := λ _ _ _, true;
     get_event_by_id := λ _ _, Some sibling_event;
     openai_policy_check_send := λ _, [];
     random_index := 3;
     ChatCompletion_create := λ _, Raise (OpenAIError "rate limit") |}.

(** The second request comes when the cache has gained an entry for another
    group, and finds an API that fails. *)
Lemma suggestion_is_shared_witness :
  let first := get (sample_collaborators []) (sample_request ∅)
                   sample_project "e1" ∅ in
  let later := <["ai:09f3" := (VStr "Retry", 300)]> (cache_after first) in
  let second := get sibling_collaborators (sample_request ∅) sample_project
                    "e9" later in
  outcome first = Ok (suggestion_response (VStr "Check the input")) ∧
  outcome second = Ok (suggestion_response (VStr "Check the input")) ∧
  api_calls (effects second) = [].
Proof.
  intros first later second.
  assert (outcome first = Ok (suggestion_response (VStr "Check the input")))
    as Hfirst by (by vm_compute).
  split; [exact Hfirst|].
  pose proof (suggestion_is_shared (sample_collaborators [])
                sibling_collaborators (sample_request ∅) (sample_request ∅)
                sample_project sample_project "e1" "e9" sample_event
                sibling_event ∅
                (suggestion_response (VStr "Check the input"))) as Hshared.
  cbv zeta in Hshared.
  destruct Hshared as (_ & Hheld & _).
  - apply sample_reaches.
  - unfold restricted. by intros [[=] | [[=] _]].
  - by split_and!.
  - unfold restricted. by intros [[=] | [[=] _]].
  - reflexivity.
  - exact Hfirst.
  - discriminate.
  - destruct (Hheld later) as (Hout & _ & Hcalls & _); [|by split].
    subst later. by rewrite lookup_insert_ne.
Defined.

(** A reply whose content is [None] is stored and never served: [cache.get]
    answers [None] for it as for a missing key, so the next request for the
    event asks the API again. *)
Theorem null_reply_is_asked_again (c : Collaborators) (request : Request)
    (project : Project) (event_id : string) (event : Event)
    (σ : gmap string (value * Z)) :
  reaches_policy_check c request project event_id event →
  ¬ restricted c request →
  outcome (get c request project event_id σ)
    = Ok (suggestion_response VNone) →
  let σ' := cache_after (get c request project event_id σ) in
  σ' !! cache_key event = Some (VNone, 300) ∧
  length (api_calls (effects (get c request project event_id σ'))) = 1%nat.
Proof.
  intros Hreach Hr Hout σ'. subst σ'. revert Hout.
  destruct (get_proceeds_parts c request project event_id σ event Hreach Hr)
    as (-> & -> & _ & _).
  destruct (is_None (cached σ (cache_key event))) eqn:Hc.
  - rewrite (suggest_miss c σ event Hc).
    destruct (describe_event_for_ai (data event)) as [event_info|e] eqn:Hinfo;
      [|discriminate].
    cbv zeta.
    destruct (ChatCompletion_create c _) as [reply|e] eqn:Hreply;
      [|discriminate].
    destruct (reply_content reply) as [suggestion|e] eqn:Hcontent;
      [|discriminate].
    unfold outcome, cache_after. simpl. intros [= ->].
    split; [by rewrite lookup_insert_eq|].
    destruct (get_proceeds_parts c request project event_id
                (<[cache_key event := (VNone, 300)]> σ) event Hreach Hr)
      as (_ & _ & -> & _).
    rewrite suggest_miss by (by rewrite cached_insert).
    rewrite Hinfo. cbv zeta. rewrite Hreply, Hcontent. done.
  - rewrite (suggest_hit c σ event Hc). unfold outcome. simpl.
    intros [= Heq]. rewrite Heq in Hc. done.
Qed.

Definition null_reply_collaborators : Collaborators :=
  {| OPENAI_API_KEY := VStr "sk-key";
     features_has := λ _ _ _, true;
     get_event_by_id := λ _ _, Some sample_event;
     openai_policy_check_send := λ _, [];
     random_index := 0;
     ChatCompletion_create := λ _,
       Ok (VDict [("choices",
                   VList [VDict [("message",
                                  VDict [("content", VNone)])]])]) |}.

Lemma null_reply_is_asked_again_witness :
  let first := get null_reply_collaborators (sample_request ∅)
                   sample_project "e1" ∅ in
  outcome first = Ok (suggestion_response VNone) ∧
  length (api_calls (effects
            (get null_reply_collaborators (sample_request ∅) sample_project
                 "e1" (cache_after first)))) = 1%nat.
Proof.
  intros first.
  assert (outcome first = Ok (suggestion_response VNone)) as Hfirst
    by (by vm_compute).
  split; [exact Hfirst|].
  apply (null_reply_is_asked_again null_reply_collaborators (sample_request ∅)
           sample_project "e1" sample_event ∅).
  - by split_and!.
  - unfold restricted. by intros [[=] | [[=] _]].
  - exact Hfirst.
Defined.

(** [sub in s] *)
Fixpoint occurs (sub s : string) : bool :=
  String.prefix sub s
  || match s with
     | EmptyString => false
     | String _ s' => occurs sub s'
     end.

Lemma random_choice_fun_prompt (c : Collaborators) :
  ∃ i, (i < 5)%nat ∧
       FUN_PROMPT_CHOICES !! i = Some (random_choice c FUN_PROMPT_CHOICES).
Proof.
  unfold random_choice.
  pose proof (Nat.mod_upper_bound (random_index c)
                (length FUN_PROMPT_CHOICES)) as Hlt.
  change (length FUN_PROMPT_CHOICES) with 5%nat in *.
  exists (random_index c mod 5)%nat. split; [lia|].
  destruct (random_index c mod 5)%nat as [|[|[|[|[|n]]]]]; try done. lia.
Qed.

(** The system prompt is the template with its placeholder filled: whatever
    the random generator picks, the prompt sent contains one of the five
    [FUN_PROMPT_CHOICES] and no longer contains ["___FUN_PROMPT___"]. *)
Theorem fun_prompt_is_filled (c : Collaborators) :
  ∃ choice,
    choice ∈ FUN_PROMPT_CHOICES ∧
    fun_prompt c = str_replace PROMPT "___FUN_PROMPT___" choice ∧
    occurs choice (fun_prompt c) = true ∧
    occurs "___FUN_PROMPT___" (fun_prompt c) = false ∧
    String.length (fun_prompt c)
      = (String.length PROMPT - 16 + String.length choice)%nat.
Proof.
  destruct (random_choice_fun_prompt c) as (i & Hi & Hchoice).
  exists (random_choice c FUN_PROMPT_CHOICES). unfold fun_prompt.
  split; [by eapply list_elem_of_lookup_2|]. split; [done|].
  destruct i as [|[|[|[|[|n]]]]]; [..|lia];
    injection Hchoice as <-; by vm_compute.
Qed.

(** ** The exceptions of a description *)

Section described_exceptions.
Implicit Types (exc : value) (e : dict) (idx : Z).

Lemma describe_exception_head idx exc e :
  describe_exception idx exc = Ok e →
  dict_lookup e "number" = Some (VInt (idx + 1)) ∧
  (∃ type, getitem exc "type" = Ok type ∧ dict_lookup e "type" = Some type) ∧
  (∃ message, Py.get exc "value" VNone = Ok message ∧
              dict_lookup e "message" = Some message) ∧
  dict_lookup e "raised_during_handling_of_previous_exception"
    = (if 0 <? idx then Some (VBool true) else None).
Proof.
  unfold describe_exception. destruct exc; try discriminate.
  simpl. destruct (dict_lookup d "type") as [type|]; [|discriminate].
  simpl. destruct (Py.get (or_else _ _) "meta" _) as [exc_meta|];
    [|discriminate].
  simpl. destruct (Py.get (or_else _ _) "handled" _) as [handled|];
    [|discriminate].
  simpl. destruct (Py.get (dict_get d "stacktrace" _) _ _) as [frames|];
    [|discriminate].
  simpl.
  match goal with |- context [dict_set ?X "stacktrace" _] => set (e0 := X) end.
  assert (dict_lookup e0 "number" = Some (VInt (idx + 1)) ∧
          dict_lookup e0 "type" = Some type ∧
          dict_lookup e0 "message" = Some (dict_get d "value" VNone) ∧
          dict_lookup e0 "raised_during_handling_of_previous_exception"
            = (if 0 <? idx then Some (VBool true) else None)) as He0.
  { subst e0. by destruct (is_False _), (truthy exc_meta), (0 <? idx). }
  assert (e = e0 ∨ (∃ v, e = dict_set e0 "stacktrace" v) →
          dict_lookup e "number" = Some (VInt (idx + 1)) ∧
          (∃ type0, Some type = Some type0 ∧ dict_lookup e "type" = Some type0) ∧
          (∃ message, Some (dict_get d "value" VNone) = Some message ∧
                      dict_lookup e "message" = Some message) ∧
          dict_lookup e "raised_during_handling_of_previous_exception"
            = (if 0 <? idx then Some (VBool true) else None)) as Hcases.
  { destruct He0 as (H1 & H2 & H3 & H4).
    intros [-> | [v ->]]; [by eauto 10|].
    rewrite !dict_lookup_set_ne by done. by eauto 10. }
  clearbody e0.
  assert (∀ x y : value, Ok x = Ok y ↔ Some x = Some y) as Hok
    by (intros; split; by intros [= ->]).
  setoid_rewrite Hok.
  destruct (truthy frames); [|intros [= <-]; apply Hcases; by left].
  destruct (reversed frames) as [rframes|]; [|discriminate]. simpl.
  destruct (describe_frames rframes false []) as [stacktrace|];
    [|discriminate].
  simpl. destruct (map VDict stacktrace); intros [= <-]; apply Hcases;
    [by left | right; by eexists].
Qed.

(** The loop appends one exception per exception value, in order, each
    described with its own index. *)
Lemma describe_exceptions_nth (l : list value) idx (acc out : list value) :
  describe_exceptions idx l acc = Ok out →
  ∃ es, out = acc ++ map VDict es ∧ length es = length l ∧
        ∀ i exc, l !! i = Some exc →
          ∃ e, es !! i = Some e ∧
               describe_exception (idx + Z.of_nat i) exc = Ok e.
Proof.
  revert idx acc. induction l as [|exc0 l IH]; intros idx acc; simpl.
  - intros [= <-]. exists []. split_and!; [by rewrite app_nil_r | done |].
    intros i exc Hi. by rewrite lookup_nil in Hi.
  - destruct (describe_exception idx exc0) as [e0|] eqn:E0; [|discriminate].
    simpl. intros (es & -> & Hlen & Hnth)%IH.
    exists (e0 :: es). split_and!.
    + by rewrite <- app_assoc.
    + simpl. by rewrite Hlen.
    + intros [|i] exc Hi; simpl in Hi.
      * injection Hi as <-. exists e0. by rewrite Z.add_0_r.
      * destruct (Hnth i exc Hi) as (e & He & Hd). exists e.
        split; [done|]. rewrite <- Hd. f_equal. lia.
Qed.

Lemma chars_VStr (s : string) (v : value) : v ∈ chars s → ∃ c, v = VStr c.
Proof.
  induction s as [|a s IH]; simpl; [by intros ?%elem_of_nil|].
  intros [->|H]%elem_of_cons; eauto.
Qed.

End described_exceptions.

(** The exceptions of a description are the exception values the loop
    reads, most recent first: there is one per exception value among the
    first [MAX_STACKTRACE_FRAMES], so at most 30; the one at position [i]
    describes the [i]-th from the end, carries its ['type'] and its
    ['value'], is numbered [i + 1], and is flagged as raised during the
    handling of the previous one exactly when it is not the first. *)
Theorem described_exceptions_numbered (event : event_data) (data : dict) :
  describe_event_for_ai event = Ok data →
  ∃ exceptions,
    dict_lookup data "exceptions" = Some (VList (map VDict exceptions)) ∧
    length exceptions = length (visited_exceptions event) ∧
    (length exceptions ≤ 30)%nat ∧
    ∀ i exc, rev (visited_exceptions event) !! i = Some exc →
      ∃ e type message,
        exceptions !! i = Some e ∧
        getitem exc "type" = Ok type ∧
        dict_lookup e "type" = Some type ∧
        Py.get exc "value" VNone = Ok message ∧
        dict_lookup e "message" = Some message ∧
        dict_lookup e "number" = Some (VInt (Z.of_nat i + 1)) ∧
        dict_lookup e "raised_during_handling_of_previous_exception"
          = (if i is O then None else Some (VBool true)).
Proof.
  intros Hrun.
  apply describe_event_for_ai_Ok in Hrun
    as (t & values & head & rvalues & excs & _ & Hv & Hh & Hr & Hd & ->).
  destruct (description_lookup (foldl add_tag [] (sorted t)) excs
              (dict_get (fields event) "message" VNone)) as [_ ->].
  apply describe_exceptions_nth in Hd as (es & -> & Hlen & Hnth).
  exists es. split; [done|].
  assert (rvalues = rev (visited_exceptions event)) as ->.
  { unfold visited_exceptions, exception_values.
    destruct (dict_get (fields event) "exception" (VDict []))
      as [| | | | | |exception]; try discriminate.
    simpl in Hv. injection Hv as <-.
    destruct (dict_get exception "values" (VList []))
      as [| | | |s|l|]; try discriminate.
    - simpl in Hh. injection Hh as <-. simpl in Hr. injection Hr as <-.
      destruct (rev (chars _)) as [|v vs] eqn:E; [done|].
      destruct (Hnth 0%nat v eq_refl) as (e & _ & He).
      assert (v ∈ rev (chars (String.substring 0
                (Z.to_nat (slice_bound (Z.of_nat (String.length s))
                                       MAX_STACKTRACE_FRAMES)) s))) as Hin.
      { rewrite E. apply list_elem_of_here. }
      apply list_elem_of_In in Hin. apply (proj2 (in_rev _ _)) in Hin.
      apply list_elem_of_In, chars_VStr in Hin as [c ->].
      discriminate.
    - simpl in Hh. injection Hh as <-. simpl in Hr. injection Hr as <-.
      by rewrite slice_take. }
  rewrite length_rev in Hlen. split; [done|]. split.
  { rewrite Hlen. unfold visited_exceptions. rewrite length_take.
    change (Z.to_nat MAX_STACKTRACE_FRAMES) with 30%nat. lia. }
  intros i exc Hi. destruct (Hnth i exc Hi) as (e & He & Hdesc).
  apply describe_exception_head in Hdesc
    as (Hnum & (type & Htype & Hlt) & (message & Hmsg & Hlm) & Hraised).
  exists e, type, message. split_and!; try done.
  rewrite Hraised. destruct i; [done|].
  by rewrite (proj2 (Z.ltb_lt 0 (0 + Z.of_nat (S i)))) by lia.
Qed.

Lemma described_exceptions_numbered_witness :
  ∃ exceptions,
    (∃ data, describe_event_for_ai long_chain_event = Ok data ∧
             dict_lookup data "exceptions"
               = Some (VList (map VDict exceptions))) ∧
    length exceptions = 30%nat.
Proof.
  assert (∃ data, describe_event_for_ai long_chain_event = Ok data)
    as [data Hrun] by (eexists; by vm_compute).
  destruct (described_exceptions_numbered long_chain_event data Hrun)
    as (exceptions & Hlook & Hlen & _).
  exists exceptions. split; [by exists data|].
  rewrite Hlen. by vm_compute.
Defined.

(** ** The frames of a description *)

(** What a described frame looks like: it starts with the four fields
    ["func"], ["module"], ["file"] and ["line"]; ["in_app"], when there, is
    the boolean [True]; ["code"], when there, is a non-empty string on a
    frame that has ["in_app"]; and it carries no ["delete"] mark. *)
Definition described_frame_ok (stack_frame : dict) : Prop :=
  take 4 (dict_keys stack_frame) = ["func"; "module"; "file"; "line"] ∧
  (dict_lookup stack_frame "in_app" = None ∨
   dict_lookup stack_frame "in_app" = Some (VBool true)) ∧
  (∀ v, dict_lookup stack_frame "code" = Some v →
        dict_lookup stack_frame "in_app" = Some (VBool true) ∧
        ∃ s, v = VStr s ∧ s ≠ "") ∧
  dict_lookup stack_frame "delete" = None.

(** The fields a described frame takes over from the frame it describes. *)
Definition describes (stack_frame : dict) (frame : value) : Prop :=
  ∃ d, frame = VDict d ∧
       take 4 stack_frame = [ ("func", dict_get d "function" VNone);
                              ("module", dict_get d "module" VNone);
                              ("file", dict_get d "filename" VNone);
                              ("line", dict_get d "lineno" VNone) ].

Section described_frames.
Implicit Types (frame : value) (sf : dict) (b : bool).

Lemma describe_frame_Ok b frame sf b' :
  describe_frame b frame = Ok (sf, b') →
  describes sf frame ∧
  (dict_lookup sf "in_app" = None ∨
   dict_lookup sf "in_app" = Some (VBool true)) ∧
  (∀ v, dict_lookup sf "code" = Some v →
        dict_lookup sf "in_app" = Some (VBool true) ∧
        ∃ s, v = VStr s ∧ s ≠ "") ∧
  dict_lookup sf "delete" = None.
Proof.
  unfold describe_frame, describes. destruct frame; try discriminate.
  simpl. destruct (dict_lookup d "in_app") as [in_app|] eqn:Hl; [|discriminate].
  assert (dict_get d "in_app" VNone = in_app) as ->
    by (unfold dict_get; by rewrite Hl).
  simpl. destruct (truthy in_app) eqn:Hin.
  - destruct b; simpl; (destruct (strip _) as [line|]; [|discriminate]);
      simpl; destruct (negb (line =? "")%string) eqn:Hline;
      intros [= <- <-]; (split; [by exists d|]); (split; [by right|]);
      (split; [|done]); intros v Hv; simpl in Hv; try discriminate;
      (split; [done|]); exists line; (split; [by injection Hv|]);
      intros ->; by rewrite String.eqb_refl in Hline.
  - intros [= <- <-]. split; [by exists d|]. split; [by left|]. done.
Qed.

Lemma describes_keys sf frame :
  describes sf frame →
  take 4 (dict_keys sf) = ["func"; "module"; "file"; "line"].
Proof.
  intros (d & _ & H). unfold dict_keys.
  change (map fst sf) with (fst <$> sf). by rewrite <- fmap_take, H.
Qed.

(** The loop over the frames appends one described frame per frame, in
    order. *)
Lemma describe_frames_nth (l : list value) b (acc out : list dict) :
  describe_frames l b acc = Ok out →
  ∃ sfs, out = acc ++ sfs ∧ length sfs = length l ∧
         ∀ i frame, l !! i = Some frame →
           ∃ sf b1 b2, sfs !! i = Some sf ∧
                       describe_frame b1 frame = Ok (sf, b2).
Proof.
  revert b acc. induction l as [|frame0 l IH]; intros b acc; simpl.
  - intros [= <-]. exists []. split_and!; [by rewrite app_nil_r | done |].
    intros i frame Hi. by rewrite lookup_nil in Hi.
  - destruct (describe_frame b frame0) as [[sf0 b0]|] eqn:E0; [|discriminate].
    simpl. intros (sfs & -> & Hlen & Hnth)%IH.
    exists (sf0 :: sfs). split_and!.
    + by rewrite <- app_assoc.
    + simpl. by rewrite Hlen.
    + intros [|i] frame Hi; simpl in Hi.
      * injection Hi as <-. by exists sf0, b, b0.
      * apply Hnth, Hi.
Qed.

(** Under the default allowance a stack trace of at most 30 frames is not
    trimmed. *)
Lemma trim_new_frames_short (stacktrace : list dict) :
  (length stacktrace ≤ 30)%nat → trim_new_frames stacktrace = stacktrace.
Proof.
  intros Hlen. unfold trim_new_frames, trim_frames.
  pose proof (classify_length (map_seq 0 stacktrace)
                (seq 0 (length stacktrace))) as Hn.
  destruct (foldl _ _ (seq 0 (length stacktrace))) as [[n a] s].
  simpl in Hn. subst n. rewrite length_seq.
  rewrite (proj2 (Z.leb_le _ _)) by (unfold MAX_STACKTRACE_FRAMES; lia).
  apply map_obj_map_seq.
Qed.

Lemma describe_frame_not_str b (s : string) :
  describe_frame b (VStr s) = Raise AttributeError.
Proof. done. Qed.

(** The stack trace of a described exception, against the frames it was
    made from: [full] is the stack trace before it is trimmed. *)
Lemma describe_exception_stacktrace_of idx exc exception :
  describe_exception idx exc = Ok exception →
  ∃ full,
    length full = length (stacktrace_frames exc) ∧
    (∀ i frame, rev (stacktrace_frames exc) !! i = Some frame →
       ∃ sf b1 b2, full !! i = Some sf ∧
                   describe_frame b1 frame = Ok (sf, b2)) ∧
    dict_lookup exception "stacktrace"
      = (if full is [] then None
         else Some (VList (map VDict (trim_new_frames full)))).
Proof.
  unfold describe_exception, stacktrace_frames.
  destruct exc; try discriminate.
  simpl. destruct (dict_lookup d "type") as [type|]; [|discriminate].
  simpl. destruct (Py.get (or_else _ _) "meta" _) as [exc_meta|];
    [|discriminate].
  simpl. destruct (Py.get (or_else _ _) "handled" _) as [handled|];
    [|discriminate].
  simpl. destruct (dict_get d "stacktrace" (VDict [])) as [| | | | | |st];
    try discriminate.
  simpl.
  match goal with |- context [dict_set ?X "stacktrace" _] => set (e0 := X) end.
  assert (dict_lookup e0 "stacktrace" = None) as He0.
  { subst e0. by destruct (is_False _), (truthy exc_meta), (0 <? idx). }
  clearbody e0.
  assert (∀ rframes : list value,
            Forall (λ v, ∃ s, v = VStr s) rframes →
            bind (describe_frames rframes false [])
              (λ stacktrace,
                 if match map VDict stacktrace with [] => false | _ => true end
                 then Ok (dict_set e0 "stacktrace"
                            (VList (map VDict (trim_new_frames stacktrace))))
                 else Ok e0) = Ok exception →
            ∃ full : list dict,
              length full = length (@nil value) ∧
              (∀ i frame, rev (@nil value) !! i = Some frame →
                 ∃ sf b1 b2, full !! i = Some sf ∧
                             describe_frame b1 frame = Ok (sf, b2)) ∧
              dict_lookup exception "stacktrace"
                = (if full is [] then None
                   else Some (VList (map VDict (trim_new_frames full)))))
    as Hstr.
  { intros rframes Hall.
    destruct (describe_frames rframes false []) as [sfs|] eqn:E;
      [|discriminate].
    apply describe_frames_nth in E as (sfs' & -> & Hlen & Hnth).
    destruct rframes as [|x rframes].
    - destruct sfs'; [|done]. simpl. intros [= <-]. by exists [].
    - apply Forall_cons in Hall as [[s ->] _].
      destruct (Hnth 0%nat (VStr s) eq_refl) as (sf & b1 & b2 & _ & Hd).
      by rewrite describe_frame_not_str in Hd. }
  destruct (dict_get st "frames" VNone) as [|b|z|f|s|l|d'] eqn:Hframes;
    simpl; try (intros [= <-]; by exists []).
  - destruct b; [discriminate|]. intros [= <-]. by exists [].
  - destruct (negb (z =? 0)); [discriminate|]. intros [= <-]. by exists [].
  - destruct (negb (PrimFloat.eqb f 0)); [discriminate|].
    intros [= <-]. by exists [].
  - destruct (negb (s =? "")%string); [|intros [= <-]; by exists []].
    apply Hstr. apply Forall_forall. intros v Hv.
    apply list_elem_of_In in Hv. apply (proj2 (in_rev _ _)) in Hv.
    by apply list_elem_of_In, chars_VStr in Hv.
  - destruct l as [|f0 l0]; [intros [= <-]; by exists []|].
    set (l := f0 :: l0).
    destruct (describe_frames (rev l) false []) as [sfs|] eqn:E;
      [|discriminate].
    apply describe_frames_nth in E as (sfs' & -> & Hlen & Hnth).
    rewrite length_rev in Hlen. simpl app.
    destruct sfs' as [|sf0 sfs']; [done|].
    simpl. intros [= <-]. exists (sf0 :: sfs'). split_and!; [done..|].
    apply dict_lookup_set_eq.
  - destruct d' as [|kv d']; [intros [= <-]; by exists []|].
    apply Hstr. apply Forall_forall. intros v Hv.
    apply list_elem_of_In in Hv. apply (proj2 (in_rev _ _)) in Hv.
    apply list_elem_of_In in Hv.
    change (map ?f ?l) with (f <$> l) in Hv.
    apply list_elem_of_fmap in Hv as (kv' & -> & _). by eexists.
Qed.

End described_frames.

(** The stack trace of a described exception lists the frames most recent
    call first.  Before trimming it has one entry per frame, in the reverse
    of their order, each with the function, module, file and line of its
    frame; trimming drops entries without reordering them; and a stack of
    at most 30 frames is not trimmed at all. *)
Theorem described_stacktrace_most_recent_first (idx : Z) (exc : value)
    (exception : dict) :
  describe_exception idx exc = Ok exception →
  stacktrace_frames exc ≠ [] →
  ∃ full stacktrace,
    dict_lookup exception "stacktrace" = Some (VList (map VDict stacktrace)) ∧
    Forall2 describes full (rev (stacktrace_frames exc)) ∧
    stacktrace `sublist_of` full ∧
    ((length (stacktrace_frames exc) ≤ 30)%nat → stacktrace = full).
Proof.
  intros (full & Hlen & Hnth & Hlook)%describe_exception_stacktrace_of Hne.
  exists full, (trim_new_frames full). split_and!.
  - destruct full; [|done]. by destruct (stacktrace_frames exc).
  - apply Forall2_same_length_lookup_2.
    { by rewrite length_rev. }
    intros i sf frame Hsf Hframe.
    destruct (Hnth i frame Hframe) as (sf' & b1 & b2 & Hsf' & Hd).
    rewrite Hsf in Hsf'. injection Hsf' as <-.
    by apply describe_frame_Ok in Hd as [? _].
  - apply trim_new_frames_sublist.
  - intros Hshort. apply trim_new_frames_short. by rewrite Hlen.
Qed.

Lemma described_stacktrace_most_recent_first_witness :
  ∃ exception stacktrace,
    describe_exception 0
      (VDict [ ("type", VStr "ValueError");
               ("stacktrace", VDict [("frames", VList [
                  VDict [("function", VStr "main"); ("in_app", VBool true)];
                  VDict [("function", VStr "send"); ("in_app", VBool false)] ])])
             ]) = Ok exception ∧
    dict_lookup exception "stacktrace" = Some (VList (map VDict stacktrace)) ∧
    map (λ sf, dict_get sf "func" VNone) stacktrace
      = [VStr "send"; VStr "main"].
Proof.
  set (exc := VDict [ ("type", VStr "ValueError");
               ("stacktrace", VDict [("frames", VList [
                  VDict [("function", VStr "main"); ("in_app", VBool true)];
                  VDict [("function", VStr "send"); ("in_app", VBool false)] ])])
             ]).
  assert (∃ exception, describe_exception 0 exc = Ok exception)
    as [exception Hrun] by (eexists; by vm_compute).
  destruct (described_stacktrace_most_recent_first 0 exc exception Hrun)
    as (full & stacktrace & Hlook & _ & _ & _); [done|].
  exists exception, stacktrace. split_and!; [done..|].
  assert (describe_exception 0 exc = Ok exception →
          dict_lookup exception "stacktrace" = Some (VList (map VDict stacktrace)) →
          map (λ sf, dict_get sf "func" VNone) stacktrace
            = [VStr "send"; VStr "main"]) as H; [|by apply H].
  vm_compute. intros [= <-]. vm_compute. intros [= H].
  destruct stacktrace as [|s1 [|s2 [|]]]; try discriminate.
  by injection H as <- <-.
Defined.

(** No described frame leaks what it should not: in every stack trace of a
    description, a frame starts with ["func"], ["module"], ["file"] and
    ["line"]; its ["in_app"], when there, is the boolean [True] whatever
    truthy value the event had; ["code"] is there only on a frame with
    ["in_app"], as a non-empty string; and the ["delete"] mark that
    [trim_frames] sets on the frames it drops is on none of the frames
    kept. *)
Theorem described_frames_normalised (event : event_data) (data : dict)
    (exceptions : list value) (exception : dict) (stacktrace : list value)
    (frame : dict) :
  describe_event_for_ai event = Ok data →
  dict_lookup data "exceptions" = Some (VList exceptions) →
  VDict exception ∈ exceptions →
  dict_lookup exception "stacktrace" = Some (VList stacktrace) →
  VDict frame ∈ stacktrace →
  described_frame_ok frame.
Proof.
  intros Hrun Hexcs Hexc Hst Hframe.
  apply describe_event_for_ai_Ok in Hrun
    as (t & values & head & rvalues & excs & _ & _ & _ & _ & Hd & ->).
  destruct (description_lookup (foldl add_tag [] (sorted t)) excs
              (dict_get (fields event) "message" VNone)) as [_ Hl].
  rewrite Hl in Hexcs. injection Hexcs as <-.
  apply describe_exceptions_nth in Hd as (es & -> & Hlen & Hnth).
  simpl in Hexc. change (map VDict es) with (VDict <$> es) in Hexc.
  apply list_elem_of_fmap in Hexc as (e & [= <-] & He).
  apply list_elem_of_lookup in He as [i He].
  destruct (lookup_lt_is_Some_2 rvalues i) as [exc Hexc].
  { rewrite <- Hlen. by eapply lookup_lt_Some. }
  destruct (Hnth i exc Hexc) as (e' & He' & Hdesc).
  rewrite He in He'. injection He' as <-.
  apply describe_exception_stacktrace_of in Hdesc
    as (full & Hfull & Hframes & Hlook).
  rewrite Hst in Hlook. destruct full as [|sf0 full']; [done|].
  injection Hlook as ->.
  change (map VDict ?l) with (VDict <$> l) in Hframe.
  apply list_elem_of_fmap in Hframe as (sf & [= <-] & Hsf).
  apply (sublist_subseteq _ _ (trim_new_frames_sublist _)) in Hsf.
  apply list_elem_of_lookup in Hsf as [j Hj].
  destruct (lookup_lt_is_Some_2 (rev (stacktrace_frames exc)) j) as [f Hf].
  { rewrite length_rev, <- Hfull. by eapply lookup_lt_Some. }
  destruct (Hframes j f Hf) as (sf' & b1 & b2 & Hsf' & Hdf).
  rewrite Hj in Hsf'. injection Hsf' as <-.
  apply describe_frame_Ok in Hdf as (Hdescribes & Hin_app & Hcode & Hdelete).
  split_and!; [by eapply describes_keys | done..].
Qed.

Lemma described_frames_normalised_witness :
  described_frame_ok
    [ ("func", VStr "handler"); ("module", VNone); ("file", VStr "app.py");
      ("line", VInt 10); ("in_app", VBool true);
      ("code", VStr "x = parse(y)") ].
Proof.
  eapply (described_frames_normalised crash_event).
  - vm_compute. reflexivity.
  - vm_compute. reflexivity.
  - apply list_elem_of_here.
  - vm_compute. reflexivity.
  - apply list_elem_of_here.
Defined.

(** ** What trim_frames does to the frames *)

Section trim_frames_marks.
Implicit Types (h : gmap nat dict) (frames sel : list nat) (x : nat).

Lemma dict_set_idemp (d : dict) (k : string) (v : value) :
  dict_set (dict_set d k v) k v = dict_set d k v.
Proof.
  induction d as [|[k' v'] d IH]; simpl.
  - by rewrite String.eqb_refl.
  - destruct (String.eqb k' k) eqn:E; simpl; rewrite E; [done|].
    by rewrite IH.
Qed.

(** Against the store [h] before the call and among the frames [frames]: an
    object is as it was, or it is a frame of the list that has been
    marked. *)
Definition marked_among h frames h' : Prop :=
  ∀ x, obj h' x = obj h x ∨
       (x ∈ frames ∧ obj h' x = dict_set (obj h x) "delete" (VBool true)).

Lemma mark_deleted_marked_among h frames sel (acc : gmap nat dict * Z) :
  sel ⊆ frames → marked_among h frames acc.1 →
  marked_among h frames (foldl mark_deleted acc sel).1.
Proof.
  revert acc. induction sel as [|y sel IH]; intros acc Hsub Hacc; [done|].
  cbn [foldl]. apply IH; [set_solver|]. simpl. intros x.
  destruct (decide (x = y)) as [->|Hne].
  - right. split; [set_solver|]. rewrite obj_set_eq.
    destruct (Hacc y) as [-> | [_ ->]]; [done | apply dict_set_idemp].
  - rewrite obj_set_ne by done. apply Hacc.
Qed.

Lemma slice_sublist {A} (l : list A) (a b : Z) : slice l a b `sublist_of` l.
Proof.
  unfold slice. etrans; [apply sublist_take | apply sublist_drop].
Qed.

Lemma classify_sublists h frames :
  (foldl (classify h) (0, [], []) frames).1.2 `sublist_of` frames ∧
  (foldl (classify h) (0, [], []) frames).2 `sublist_of` frames.
Proof.
  destruct (classify_app_system h frames (0, [], [])) as [-> ->].
  simpl. split; apply filter_sublist.
Qed.

Lemma trim_frames_marked_among h frames frame_allowance :
  marked_among h frames (trim_frames h frames frame_allowance).1.
Proof.
  unfold trim_frames.
  destruct (classify_sublists h frames) as [Happ Hsys].
  destruct (foldl (classify h) (0, [], []) frames) as [[n a] s].
  simpl in Happ, Hsys. apply sublist_subseteq in Happ, Hsys.
  destruct (n <=? frame_allowance); simpl; [by left|].
  set (p1 := if negb (_ =? 0) then _ else _).
  assert (marked_among h frames p1.1) as H1.
  { subst p1. destruct (negb _); apply mark_deleted_marked_among;
      try (by left); [|done].
    etrans; [apply sublist_subseteq, slice_sublist | done]. }
  destruct p1 as [h1 r1]. simpl in H1.
  destruct (negb (r1 =? 0)); simpl; [|done].
  apply mark_deleted_marked_among; [|done].
  etrans; [apply sublist_subseteq, slice_sublist | done].
Qed.

End trim_frames_marks.

(** [trim_frames] only drops frames.  The frames it returns are frames of
    its argument in their order; the objects it returns are as they were;
    and the only change it makes to the store is to set ["delete"] to [True]
    on frames of the list that it does not return. *)
Theorem trim_frames_only_drops (h : gmap nat dict) (frames : list nat)
    (frame_allowance : Z) :
  let h' := (trim_frames h frames frame_allowance).1 in
  let kept := (trim_frames h frames frame_allowance).2 in
  kept `sublist_of` frames ∧
  Forall (λ x, obj h' x = obj h x) kept ∧
  ∀ x, obj h' x = obj h x ∨
       (x ∈ frames ∧ (x ∉ kept) ∧
        obj h' x = dict_set (obj h x) "delete" (VBool true)).
Proof.
  intros h' kept.
  destruct (trim_frames_kept h frames frame_allowance) as [Hsub Hsame].
  fold h' kept in Hsub, Hsame. split_and!; [done..|].
  intros x.
  destruct (trim_frames_marked_among h frames frame_allowance x)
    as [Hx | [Hin Hx]]; fold h' in Hx; [by left|].
  destruct (decide (x ∈ kept)) as [Hk|Hk]; [|by right].
  left. by apply (proj1 (Forall_forall _ _) Hsame).
Qed.

(** A frame that comes with a truthy ["delete"] is dropped as soon as the
    list is longer than the allowance, whether or not the trimming would
    have picked it: every frame returned then has no truthy ["delete"]. *)
Theorem trim_frames_drops_marked (h : gmap nat dict) (frames : list nat)
    (frame_allowance : Z) :
  frame_allowance < Z.of_nat (length frames) →
  Forall (λ x, truthy (obj_get h x "delete") = false)
         (trim_frames h frames frame_allowance).2.
Proof.
  intros Hlong.
  destruct (trim_frames_kept h frames frame_allowance) as [_ Hsame].
  revert Hsame. unfold trim_frames.
  pose proof (classify_length h frames) as Hlen.
  destruct (foldl (classify h) (0, [], []) frames) as [[n a] s].
  simpl in Hlen. subst n.
  rewrite (proj2 (Z.leb_gt _ _)) by lia.
  destruct (if negb (_ =? 0) then _ else _) as [h1 r1].
  set (h2 := if negb (r1 =? 0) then _ else _). clearbody h2. simpl.
  rewrite !Forall_forall. intros Hsame x Hx.
  specialize (Hsame x Hx).
  apply list_elem_of_In, filter_In in Hx as [_ Hx].
  unfold obj_get in *. rewrite Hsame in Hx. by destruct (truthy _).
Qed.

(** Two frames over an allowance of 1, the first already marked. *)
Definition marked_frames : gmap nat dict :=
  map_seq 0 [ [("func", VStr "f"); ("delete", VInt 1)];
              [("func", VStr "g")] ].

Lemma trim_frames_drops_marked_witness :
  (trim_frames marked_frames [0; 1]%nat 1).2 = [1%nat] ∧
  Forall (λ x, truthy (obj_get marked_frames x "delete") = false)
         (trim_frames marked_frames [0; 1]%nat 1).2.
Proof.
  split; [by vm_compute|].
  apply (trim_frames_drops_marked marked_frames [0; 1]%nat 1).
  by vm_compute.
Defined.

(** ** When trim_frames keeps to the allowance *)

(** [frame.get("in_app")] is truthy *)
Definition in_app (h : gmap nat dict) (x : nat) : bool :=
  truthy (obj_get h x "in_app").

(** The frames a call on a list longer than the allowance marks: the middle
    of the system frames (all of them when the app frames alone fill the
    allowance), then the middle of the app frames when that was not
    enough. *)
Definition marked_frames_of (h : gmap nat dict) (frames : list nat)
    (frame_allowance : Z) : list nat :=
  let app_frames := List.filter (in_app h) frames in
  let system_frames := List.filter (λ x, negb (in_app h x)) frames in
  let app_count := Z.of_nat (length app_frames) in
  let system_allowance := Z.max (frame_allowance - app_count) 0 in
  let marked_system :=
    if negb (system_allowance =? 0)
    then slice system_frames (int_half system_allowance)
               (- int_half system_allowance)
    else system_frames in
  let remaining :=
    Z.of_nat (length frames) - frame_allowance
    - Z.of_nat (length marked_system) in
  let marked_app :=
    if negb (remaining =? 0)
    then slice app_frames (int_half (app_count - remaining))
               (- int_half (app_count - remaining))
    else [] in
  marked_system ++ marked_app.

Section trim_frames_allowance.
Implicit Types (h : gmap nat dict) (frames sel : list nat) (x : nat).

Lemma mark_deleted_fold sel (acc : gmap nat dict * Z) :
  foldl mark_deleted acc sel
  = (foldl (λ h x, obj_set h x "delete" (VBool true)) acc.1 sel,
     acc.2 - Z.of_nat (length sel)).
Proof.
  revert acc. induction sel as [|y sel IH]; intros [h r]; cbn [foldl].
  - simpl. f_equal. lia.
  - rewrite IH. simpl. f_equal. lia.
Qed.

Lemma classify_result h frames :
  foldl (classify h) (0, [], []) frames
  = (Z.of_nat (length frames), List.filter (in_app h) frames,
     List.filter (λ x, negb (in_app h x)) frames).
Proof.
  pose proof (classify_length h frames) as Hn.
  destruct (classify_app_system h frames (0, [], [])) as [Ha Hs].
  destruct (foldl (classify h) (0, [], []) frames) as [[n a] s].
  simpl in *. by subst.
Qed.

(** A call on a list longer than the allowance, spelled out. *)
Lemma trim_frames_long h frames frame_allowance :
  frame_allowance < Z.of_nat (length frames) →
  trim_frames h frames frame_allowance
  = let h' := foldl (λ h x, obj_set h x "delete" (VBool true)) h
                    (marked_frames_of h frames frame_allowance) in
    (h', List.filter (λ x, negb (truthy (obj_get h' x "delete"))) frames).
Proof.
  intros Hlong. unfold trim_frames, marked_frames_of.
  rewrite classify_result. rewrite (proj2 (Z.leb_gt _ _)) by lia.
  cbv zeta.
  set (app_frames := List.filter (in_app h) frames).
  set (system_frames := List.filter (λ x, negb (in_app h x)) frames).
  set (sa := Z.max _ 0).
  destruct (negb (sa =? 0)); rewrite mark_deleted_fold; cbn [fst snd].
  - set (m1 := slice system_frames _ _).
    destruct (negb (_ =? 0)).
    + rewrite mark_deleted_fold. cbn [fst snd]. by rewrite foldl_app.
    + by rewrite app_nil_r.
  - destruct (negb (_ =? 0)).
    + rewrite mark_deleted_fold. cbn [fst snd]. by rewrite foldl_app.
    + by rewrite app_nil_r.
Qed.

Lemma marked_store_delete h sel x :
  truthy (obj_get (foldl (λ h x, obj_set h x "delete" (VBool true)) h sel)
                  x "delete")
  = bool_decide (x ∈ sel) || truthy (obj_get h x "delete").
Proof.
  revert h. induction sel as [|y sel IH]; intros h; [done|].
  cbn [foldl]. rewrite IH. unfold obj_get.
  destruct (decide (x = y)) as [->|Hne].
  - rewrite obj_set_eq. unfold dict_get. rewrite dict_lookup_set_eq. simpl.
    rewrite orb_true_r. symmetry. rewrite orb_true_iff. left.
    apply bool_decide_eq_true_2. left.
  - rewrite obj_set_ne by done. f_equal. apply bool_decide_ext.
    rewrite elem_of_cons. naive_solver.
Qed.

Lemma List_filter_bool_decide {A} (P : A → Prop) `{!∀ a, Decision (P a)}
    (l : list A) :
  List.filter (λ a, bool_decide (P a)) l = filter P l.
Proof.
  induction l as [|a l IH]; [done|]. simpl. rewrite IH.
  case_bool_decide.
  - by rewrite filter_cons_True.
  - by rewrite filter_cons_False.
Qed.

(** The frames kept, when none came marked: those outside [sel]. *)
Lemma kept_unmarked h frames sel :
  Forall (λ x, truthy (obj_get h x "delete") = false) frames →
  List.filter
    (λ x, negb (truthy (obj_get
             (foldl (λ h x, obj_set h x "delete" (VBool true)) h sel)
             x "delete"))) frames
  = filter (λ x, x ∉ sel) frames.
Proof.
  intros Hclean. rewrite <- List_filter_bool_decide.
  apply filter_ext_in. intros x Hx%list_elem_of_In.
  rewrite marked_store_delete.
  rewrite (proj1 (Forall_forall _ _) Hclean x Hx), orb_false_r.
  by rewrite bool_decide_not.
Qed.

Lemma length_filter_not_elem_of frames sel :
  NoDup frames → NoDup sel → sel ⊆ frames →
  (length (filter (λ x, x ∉ sel) frames) + length sel = length frames)%nat.
Proof.
  intros Hf Hs Hsub.
  rewrite <- (length_app _ sel).
  rewrite <- (Permutation_length (filter_app_complement (λ x, x ∈ sel) frames)).
  rewrite !length_app. rewrite Nat.add_comm. f_equal.
  apply Permutation_length. symmetry.
  apply NoDup_Permutation; [by apply NoDup_filter | done |].
  intros x. rewrite list_elem_of_filter. set_solver.
Qed.

Lemma length_List_filter_split {A} (p : A → bool) (l : list A) :
  (length (List.filter p l) + length (List.filter (λ a, negb (p a)) l)
   = length l)%nat.
Proof.
  induction l as [|a l IH]; [done|]. simpl. destruct (p a); simpl; lia.
Qed.

Lemma slice_bound_range (n i : Z) : 0 ≤ n → 0 ≤ slice_bound n i ≤ n.
Proof. intros Hn. unfold slice_bound. destruct (Z.ltb_spec i 0); lia. Qed.

Lemma length_slice {A} (l : list A) (a b : Z) :
  length (slice l a b)
  = Z.to_nat (slice_bound (Z.of_nat (length l)) b
              - slice_bound (Z.of_nat (length l)) a).
Proof.
  unfold slice.
  pose proof (slice_bound_range (Z.of_nat (length l)) a) as Ha.
  pose proof (slice_bound_range (Z.of_nat (length l)) b) as Hb.
  rewrite length_take, length_drop. lia.
Qed.

Lemma int_half_nonneg (x : Z) : 0 ≤ x → int_half x = x / 2.
Proof. intros Hx. unfold int_half. by apply Z.quot_div_nonneg. Qed.

(** The frames marked, by cases on the number of app frames. *)
Lemma marked_frames_of_cases h frames frame_allowance :
  let app_frames := List.filter (in_app h) frames in
  let system_frames := List.filter (λ x, negb (in_app h x)) frames in
  let app_count := Z.of_nat (length app_frames) in
  2 ≤ frame_allowance →
  frame_allowance < Z.of_nat (length frames) →
  app_count ≠ frame_allowance - 1 →
  ∃ marked_system marked_app,
    marked_frames_of h frames frame_allowance = marked_system ++ marked_app ∧
    marked_system `sublist_of` system_frames ∧
    marked_app `sublist_of` app_frames ∧
    frame_allowance - 1
      ≤ Z.of_nat (length frames) - Z.of_nat (length marked_system)
        - Z.of_nat (length marked_app)
      ≤ frame_allowance ∧
    (app_count ≤ frame_allowance - 2 → marked_app = []) ∧
    (frame_allowance ≤ app_count → marked_system = system_frames).
Proof.
  intros app_frames system_frames app_count Hmin Hlong Hne.
  unfold marked_frames_of. cbv zeta.
  fold app_frames system_frames app_count.
  pose proof (length_List_filter_split (in_app h) frames) as Hsplit.
  fold app_frames system_frames in Hsplit.
  assert (∀ (l : list nat) (k : Z), 1 ≤ k →
            Z.of_nat (length (slice l k (- k)))
            = Z.max (Z.of_nat (length l) - 2 * k) 0) as Hslice.
  { intros l k Hk. rewrite length_slice. unfold slice_bound.
    destruct (Z.ltb_spec (- k) 0), (Z.ltb_spec k 0); lia. }
  assert (∀ (l : list nat) (k : Z), 0 ≤ k →
            Z.of_nat (length (slice l k (- k)))
            ≤ Z.max (Z.of_nat (length l) - 2 * k) 0) as Hslice_le.
  { intros l k Hk. rewrite length_slice. unfold slice_bound.
    destruct (Z.ltb_spec (- k) 0), (Z.ltb_spec k 0); lia. }
  destruct (decide (app_count ≤ frame_allowance - 2)) as [Hfew|Hmany].
  - (* the system frames make room *)
    rewrite Z.max_l by lia.
    rewrite (proj2 (Z.eqb_neq (frame_allowance - app_count) 0)) by lia.
    cbn [negb]. rewrite int_half_nonneg by lia.
    set (half_max := (frame_allowance - app_count) / 2).
    assert (1 ≤ half_max ∧ 2 * half_max ≤ frame_allowance - app_count
            ≤ 2 * half_max + 1) as Hhalf
      by (subst half_max; Z.div_mod_to_equations; lia).
    set (marked_system := slice system_frames half_max (- half_max)).
    assert (Z.of_nat (length marked_system)
            = Z.of_nat (length system_frames) - 2 * half_max) as Hms.
    { subst marked_system. rewrite Hslice by lia. lia. }
    set (remaining := Z.of_nat (length frames) - frame_allowance
                      - Z.of_nat (length marked_system)).
    assert (remaining = 0 ∨ remaining = -1) as Hrem
      by (subst remaining; lia).
    assert ((if negb (remaining =? 0)
             then slice app_frames (int_half (app_count - remaining))
                        (- int_half (app_count - remaining))
             else []) = []) as ->.
    { destruct Hrem as [-> | ->]; [done|]. simpl negb. cbv iota.
      apply length_zero_iff_nil. apply Nat2Z.inj.
      rewrite int_half_nonneg by lia.
      pose proof (Hslice_le app_frames ((app_count - -1) / 2)) as Hle.
      fold app_count in Hle. revert Hle. Z.div_mod_to_equations. lia. }
    exists marked_system, []. split_and!; try done.
    + apply slice_sublist.
    + apply sublist_nil_l.
    + simpl. lia.
    + simpl. lia.
    + lia.
  - (* the app frames alone fill the allowance *)
    rewrite Z.max_r by lia. simpl negb. cbv iota.
    set (remaining := Z.of_nat (length frames) - frame_allowance
                      - Z.of_nat (length system_frames)).
    assert (remaining = app_count - frame_allowance) as Hrem
      by (subst remaining app_count; lia).
    destruct (Z.eqb_spec remaining 0) as [Hzero|Hpos]; simpl negb; cbv iota.
    + exists system_frames, [].
      split_and!; try done; try apply sublist_nil_l; simpl; lia.
    + rewrite Hrem.
      replace (app_count - (app_count - frame_allowance))
        with frame_allowance by lia.
      rewrite int_half_nonneg by lia.
      set (half_max := frame_allowance / 2).
      assert (1 ≤ half_max ∧ 2 * half_max ≤ frame_allowance
              ≤ 2 * half_max + 1) as Hhalf
      by (subst half_max; Z.div_mod_to_equations; lia).
      exists system_frames, (slice app_frames half_max (- half_max)).
      split_and!; try done; try apply slice_sublist;
        rewrite ?Hslice by lia; fold app_count; lia.
Qed.

End trim_frames_allowance.

Lemma trim_frames_allowance_cases (h : gmap nat dict) (frames : list nat)
    (frame_allowance : Z) :
  NoDup frames →
  Forall (λ x, truthy (obj_get h x "delete") = false) frames →
  2 ≤ frame_allowance →
  frame_allowance < Z.of_nat (length frames) →
  Z.of_nat (length (List.filter (in_app h) frames)) ≠ frame_allowance - 1 →
  let app_count := Z.of_nat (length (List.filter (in_app h) frames)) in
  let kept := (trim_frames h frames frame_allowance).2 in
  frame_allowance - 1 ≤ Z.of_nat (length kept) ≤ frame_allowance ∧
  (app_count ≤ frame_allowance - 2 →
     ∀ x, x ∈ frames → in_app h x = true → x ∈ kept) ∧
  (frame_allowance ≤ app_count →
     ∀ x, x ∈ kept → in_app h x = true).
Proof.
  intros Hnd Hclean Hmin Hlong Hne app_count kept. subst kept.
  rewrite trim_frames_long by done. cbv zeta. cbn [snd].
  rewrite kept_unmarked by done.
  destruct (marked_frames_of_cases h frames frame_allowance Hmin Hlong Hne)
    as (m1 & m2 & -> & Hm1 & Hm2 & Hlen & Hfew & Hmany).
  pose proof (filter_sublist (in_app h) frames) as Happ.
  pose proof (filter_sublist (λ x, negb (in_app h x)) frames) as Hsys.
  assert (∀ x, x ∈ m1 → in_app h x = false) as Hin1.
  { intros x Hx. apply (sublist_subseteq _ _ Hm1) in Hx.
    apply list_elem_of_In, filter_In in Hx as [_ Hx].
    by destruct (in_app h x). }
  assert (∀ x, x ∈ m2 → in_app h x = true) as Hin2.
  { intros x Hx. apply (sublist_subseteq _ _ Hm2) in Hx.
    by apply list_elem_of_In, filter_In in Hx as [_ Hx]. }
  pose proof (transitivity Hm1 Hsys) as Hm1f.
  pose proof (transitivity Hm2 Happ) as Hm2f.
  assert (NoDup (m1 ++ m2)) as Hndm.
  { apply NoDup_app. split_and!.
    - by apply (sublist_NoDup _ frames).
    - intros x Hx1 Hx2. apply Hin1 in Hx1. apply Hin2 in Hx2. congruence.
    - by apply (sublist_NoDup _ frames). }
  assert (m1 ++ m2 ⊆ frames) as Hsub.
  { intros x [Hx|Hx]%elem_of_app.
    - by apply (sublist_subseteq _ _ Hm1f).
    - by apply (sublist_subseteq _ _ Hm2f). }
  pose proof (length_filter_not_elem_of frames (m1 ++ m2) Hnd Hndm Hsub)
    as Hcount.
  rewrite length_app in Hcount. split_and!.
  - lia.
  - lia.
  - intros Ha x Hx Hin. apply list_elem_of_filter. split; [|done].
    rewrite (Hfew Ha), app_nil_r. intros Hx1%Hin1. congruence.
  - intros Ha x [Hx Hxf]%list_elem_of_filter.
    destruct (in_app h x) eqn:E; [done|]. destruct Hx.
    apply elem_of_app. left. rewrite (Hmany Ha).
    apply list_elem_of_In, filter_In. split; [by apply list_elem_of_In|].
    by rewrite E.
Qed.


(** Where [trim_frames] keeps to its allowance.  For distinct frames that
    come unmarked, an allowance of at least 2 and a number of app frames
    other than the allowance less one, a list longer than the allowance is
    cut down to the allowance or to one frame less.  When the app frames
    leave room for at least two system frames, every app frame is kept;
    when the app frames alone fill the allowance, no system frame is. *)
Theorem trim_frames_within_allowance (h : gmap nat dict) (frames : list nat)
    (frame_allowance : Z) :
  NoDup frames →
  Forall (λ x, truthy (obj_get h x "delete") = false) frames →
  2 ≤ frame_allowance →
  frame_allowance < Z.of_nat (length frames) →
  Z.of_nat (length (List.filter (in_app h) frames)) ≠ frame_allowance - 1 →
  let app_count := Z.of_nat (length (List.filter (in_app h) frames)) in
  let kept := (trim_frames h frames frame_allowance).2 in
  frame_allowance - 1 ≤ Z.of_nat (length kept) ≤ frame_allowance ∧
  (app_count ≤ frame_allowance - 2 →
     ∀ x, x ∈ frames → in_app h x = true → x ∈ kept) ∧
  (frame_allowance ≤ app_count →
     ∀ x, x ∈ kept → in_app h x = true).
Proof. apply trim_frames_allowance_cases. Qed.

Lemma trim_frames_within_allowance_witness :
  length (trim_frames (stack_of 10 40) (seq 0 50) MAX_STACKTRACE_FRAMES).2
    = 30%nat ∧
  length (trim_frames (stack_of 40 10) (seq 0 50) MAX_STACKTRACE_FRAMES).2
    = 30%nat.
Proof.
  split.
  - destruct (trim_frames_within_allowance (stack_of 10 40) (seq 0 50)
                MAX_STACKTRACE_FRAMES) as ([Hlow Hup] & _ & _).
    + apply NoDup_seq.
    + apply (bool_decide_unpack _). by vm_compute.
    + by vm_compute.
    + by vm_compute.
    + by vm_compute.
    + assert (length (trim_frames (stack_of 10 40) (seq 0 50)
                        MAX_STACKTRACE_FRAMES).2 ≠ 29%nat) by (by vm_compute).
      unfold MAX_STACKTRACE_FRAMES in *. lia.
  - destruct (trim_frames_within_allowance (stack_of 40 10) (seq 0 50)
                MAX_STACKTRACE_FRAMES) as ([Hlow Hup] & _ & _).
    + apply NoDup_seq.
    + apply (bool_decide_unpack _). by vm_compute.
    + by vm_compute.
    + by vm_compute.
    + by vm_compute.
    + assert (length (trim_frames (stack_of 40 10) (seq 0 50)
                        MAX_STACKTRACE_FRAMES).2 ≠ 29%nat) by (by vm_compute).
      unfold MAX_STACKTRACE_FRAMES in *. lia.
Defined.

(** ** The length of a described stack trace *)

(** [frame.get("in_app")] is truthy, for a frame of the event. *)
Definition frame_in_app (frame : value) : bool :=
  match frame with
  | VDict d => truthy (dict_get d "in_app" VNone)
  | _ => false
  end.

Section described_stacktrace_length.
Implicit Types (frame : value) (sf : dict) (full : list dict).

Lemma describe_frame_marks b frame sf b' :
  describe_frame b frame = Ok (sf, b') →
  truthy (dict_get sf "in_app" VNone) = frame_in_app frame ∧
  truthy (dict_get sf "delete" VNone) = false.
Proof.
  unfold describe_frame, frame_in_app. destruct frame; try discriminate.
  simpl. destruct (dict_lookup d "in_app") as [in_app|] eqn:Hl; [|discriminate].
  assert (dict_get d "in_app" VNone = in_app) as ->
    by (unfold dict_get; by rewrite Hl).
  simpl. destruct (truthy in_app) eqn:Hin.
  - destruct b; simpl; (destruct (strip _) as [line|]; [|discriminate]);
      simpl; destruct (negb (line =? "")%string); by intros [= <- <-].
  - by intros [= <- <-].
Qed.

Lemma length_filter_map {A} (p : A → bool) (l : list A) :
  length (List.filter p l) = length (List.filter (λ b, b) (map p l)).
Proof.
  induction l as [|a l IH]; [done|]. simpl.
  destruct (p a); simpl; by rewrite IH.
Qed.

Lemma length_filter_rev {A} (p : A → bool) (l : list A) :
  length (List.filter p (rev l)) = length (List.filter p l).
Proof.
  induction l as [|a l IH]; [done|]. simpl.
  rewrite List.filter_app, length_app, IH. simpl.
  destruct (p a); simpl; lia.
Qed.

(** Trimming a new stack trace whose frames carry no mark, by the number of
    its app frames. *)
Lemma trim_new_frames_length full :
  Forall (λ sf, truthy (dict_get sf "delete" VNone) = false) full →
  length (List.filter (λ sf, truthy (dict_get sf "in_app" VNone)) full)
    ≠ 29%nat →
  (length (trim_new_frames full) ≤ 30)%nat.
Proof.
  intros Hclean Happ.
  destruct (decide (length full ≤ 30)%nat) as [Hshort|Hlong].
  { by rewrite trim_new_frames_short. }
  unfold trim_new_frames.
  set (h := map_seq 0 full : gmap nat dict).
  pose proof (map_obj_map_seq full) as Hobj. fold h in Hobj.
  assert (length (List.filter (in_app h) (seq 0 (length full)))
          = length (List.filter (λ sf, truthy (dict_get sf "in_app" VNone))
                                full)) as Hcount.
  { rewrite (length_filter_map (in_app h)).
    rewrite (length_filter_map (λ sf, truthy (dict_get sf "in_app" VNone))).
    rewrite <- Hobj at 2. by rewrite map_map. }
  destruct (trim_frames_allowance_cases h (seq 0 (length full))
              MAX_STACKTRACE_FRAMES) as ([_ Hup] & _ & _).
  - apply NoDup_seq.
  - apply Forall_forall. intros x Hx.
    apply elem_of_seq in Hx as [_ Hx]. simpl in Hx.
    destruct (lookup_lt_is_Some_2 full x Hx) as [sf Hsf].
    unfold obj_get, obj, h. rewrite lookup_map_seq_0, Hsf. simpl.
    apply list_elem_of_lookup_2 in Hsf.
    by apply (proj1 (Forall_forall _ _) Hclean).
  - done.
  - rewrite length_seq. unfold MAX_STACKTRACE_FRAMES. lia.
  - rewrite Hcount. unfold MAX_STACKTRACE_FRAMES. lia.
  - destruct (trim_frames h _ _) as [h' kept]. simpl in Hup.
    rewrite length_map. unfold MAX_STACKTRACE_FRAMES in Hup. lia.
Qed.

End described_stacktrace_length.

(** A described stack trace has at most 30 frames unless exactly 29 frames
    of the exception are from app code: that number is the only one for
    which the trimming can leave a stack trace over the allowance. *)
Theorem described_stacktrace_bounded (idx : Z) (exc : value)
    (exception : dict) (stacktrace : list value) :
  describe_exception idx exc = Ok exception →
  dict_lookup exception "stacktrace" = Some (VList stacktrace) →
  length (List.filter frame_in_app (stacktrace_frames exc)) ≠ 29%nat →
  (length stacktrace ≤ 30)%nat.
Proof.
  intros (full & Hlen & Hnth & Hlook)%describe_exception_stacktrace_of Hst.
  rewrite Hst in Hlook. destruct full as [|sf0 full']; [done|].
  injection Hlook as ->. set (full := sf0 :: full') in *.
  intros Happ. rewrite length_map.
  assert (∀ i sf, full !! i = Some sf →
            ∃ frame, rev (stacktrace_frames exc) !! i = Some frame ∧
                     truthy (dict_get sf "in_app" VNone) = frame_in_app frame ∧
                     truthy (dict_get sf "delete" VNone) = false) as Hfull.
  { intros i sf Hsf.
    destruct (lookup_lt_is_Some_2 (rev (stacktrace_frames exc)) i)
      as [frame Hframe].
    { rewrite length_rev, <- Hlen. by eapply lookup_lt_Some. }
    destruct (Hnth i frame Hframe) as (sf' & b1 & b2 & Hsf' & Hd).
    rewrite Hsf in Hsf'. injection Hsf' as <-.
    exists frame. split; [done|]. by eapply describe_frame_marks. }
  apply trim_new_frames_length.
  - apply Forall_forall. intros sf [i Hi]%list_elem_of_lookup.
    by destruct (Hfull i sf Hi) as (_ & _ & _ & ?).
  - rewrite <- length_filter_rev in Happ.
    rewrite (length_filter_map frame_in_app) in Happ.
    rewrite length_filter_map.
    assert (map (λ sf, truthy (dict_get sf "in_app" VNone)) full
            = map frame_in_app (rev (stacktrace_frames exc))) as ->; [|done].
    apply list_eq. intros i. change (map ?f ?l) with (f <$> l).
    rewrite !list_lookup_fmap.
    destruct (full !! i) as [sf|] eqn:Hsf.
    + destruct (Hfull i sf Hsf) as (frame & -> & Hin & _). simpl.
      by rewrite Hin.
    + apply lookup_ge_None in Hsf. rewrite Hlen, <- length_rev in Hsf.
      apply lookup_ge_None in Hsf. by rewrite Hsf.
Qed.

(** An exception with 40 frames, 10 of them from app code. *)
Definition deep_exception : value :=
  VDict [ ("type", VStr "RecursionError");
          ("stacktrace",
           VDict [("frames",
                   VList (replicate 10 (VDict [ ("function", VStr "handler");
                                                ("in_app", VBool true) ])
                          ++ replicate 30 (VDict [ ("function", VStr "call");
                                                   ("in_app", VBool false) ])))])
        ].

Lemma described_stacktrace_bounded_witness :
  ∃ exception stacktrace,
    describe_exception 0 deep_exception = Ok exception ∧
    dict_lookup exception "stacktrace" = Some (VList stacktrace) ∧
    (length stacktrace ≤ 30)%nat.
Proof.
  assert (∃ exception stacktrace,
            describe_exception 0 deep_exception = Ok exception ∧
            dict_lookup exception "stacktrace" = Some (VList stacktrace))
    as (exception & stacktrace & Hrun & Hlook).
  { eexists. eexists. split; by vm_compute. }
  exists exception, stacktrace. split_and!; [done..|].
  apply (described_stacktrace_bounded 0 deep_exception exception stacktrace
           Hrun Hlook).
  by vm_compute.
Defined.

(** ** Events without exceptions, and exceptions past the limit *)

(** A missing key is not a null.  An event with tags and no ["exception"]
    key, or with an ["exception"] that has no ["values"], gets a description
    with no exception in it; an event whose ["exception"] is [None] raises
    [AttributeError], the default of [event.get("exception", {})] being for
    a missing key only. *)
Theorem describe_event_without_exception (event : event_data)
    (event_tags : list (string * string)) :
  tags event = Some event_tags →
  let described :=
    Ok (description (foldl add_tag [] (sorted event_tags)) []
                    (dict_get (fields event) "message" VNone)) in
  (dict_lookup (fields event) "exception" = None →
     describe_event_for_ai event = described) ∧
  (∀ d, dict_lookup (fields event) "exception" = Some (VDict d) →
        dict_lookup d "values" = None →
        describe_event_for_ai event = described) ∧
  (dict_lookup (fields event) "exception" = Some VNone →
     describe_event_for_ai event = Raise AttributeError).
Proof.
  intros Htags described. subst described.
  unfold describe_event_for_ai, description. rewrite Htags.
  split_and!.
  - intros Hmissing. unfold dict_get. by rewrite Hmissing.
  - intros d Hd Hvalues. unfold Py.get, dict_get. by rewrite Hd, Hvalues.
  - intros Hnull. unfold dict_get. by rewrite Hnull.
Qed.

Lemma describe_event_without_exception_witness :
  describe_event_for_ai (tagged_event "id:1" "1.0")
  = Ok [ ("tags", VDict [ ("level", VStr "fatal");
                          ("transaction", VStr "/checkout") ]);
         ("exceptions", VList []);
         ("message", VStr "checkout failed") ].
Proof.
  destruct (describe_event_without_exception (tagged_event "id:1" "1.0") _
              eq_refl) as (Hmissing & _ & _).
  rewrite Hmissing by done. by vm_compute.
Defined.

(** Only the first [MAX_STACKTRACE_FRAMES] exception values count: two
    events with the same tags and message whose lists of exception values
    agree on their first 30 entries have the same description, or fail
    alike, whatever follows those entries. *)
Theorem describe_event_ignores_later_exceptions (e1 e2 : event_data)
    (d1 d2 : dict) (values1 values2 : list value) :
  tags e1 = tags e2 →
  dict_get (fields e1) "message" VNone = dict_get (fields e2) "message" VNone →
  dict_lookup (fields e1) "exception" = Some (VDict d1) →
  dict_lookup (fields e2) "exception" = Some (VDict d2) →
  dict_lookup d1 "values" = Some (VList values1) →
  dict_lookup d2 "values" = Some (VList values2) →
  take 30 values1 = take 30 values2 →
  describe_event_for_ai e1 = describe_event_for_ai e2.
Proof.
  intros Htags Hmsg He1 He2 Hv1 Hv2 Htake.
  assert (Hvalues : ∀ (fs d : dict) (values : list value),
    dict_lookup fs "exception" = Some (VDict d) →
    dict_lookup d "values" = Some (VList values) →
    Py.bind (Py.get (dict_get fs "exception" (VDict [])) "values" (VList []))
            (λ v, slice_to v MAX_STACKTRACE_FRAMES)
    = Ok (VList (take 30 values))).
  { intros fs d values Hfs Hd. unfold dict_get. rewrite Hfs. unfold Py.get.
    unfold dict_get. rewrite Hd. cbn [bind slice_to].
    by rewrite slice_take. }
  unfold describe_event_for_ai. rewrite Htags, Hmsg.
  destruct (tags e2) as [t|]; [|done]. cbn [bind].
  pose proof (Hvalues _ _ _ He1 Hv1) as H1.
  pose proof (Hvalues _ _ _ He2 Hv2) as H2.
  rewrite Htake in H1. revert H1 H2.
  destruct (Py.get (dict_get (fields e1) "exception" (VDict [])) "values"
              (VList [])) as [v1|x1];
    destruct (Py.get (dict_get (fields e2) "exception" (VDict [])) "values"
                (VList [])) as [v2|x2]; cbn [bind]; try done.
  by intros -> ->.
Qed.

(** [long_chain_event] with its last exception value replaced. *)
Definition other_long_chain_event : event_data :=
  {| tags := Some [("level", "error")];
     fields :=
       [ ("exception",
          VDict [("values",
                  VList (replicate 30 (VDict [("type", VStr "RuntimeError")])
                         ++ [VNone; VStr "anything"]))]) ] |}.

Lemma describe_event_ignores_later_exceptions_witness :
  describe_event_for_ai long_chain_event
  = describe_event_for_ai other_long_chain_event.
Proof.
  by eapply (describe_event_ignores_later_exceptions long_chain_event
               other_long_chain_event).
Defined.
